(** * Home Automation Hub: the room view's device-state synchronisation

    A shallow embedding of the parts of the React front end that keep the
    in-memory device list of a room consistent:

    - [applyDeviceUpdate], the live-channel message handler, the REST
      loader, the toggle and create-device handlers and the position
      preview/commit handlers of [RoomPage];
    - the pointer handlers of [RoomCanvas] ([getPercentFromPointer],
      [handlePointerDown], [handlePointerMove], [finishDrag]);
    - the response-error interceptor of the axios instance in [api.js].

    JavaScript objects that the code uses as records of JSON fields are
    finite maps from property names to values; the [devices] array is a
    list, whose elements are whatever JSON values the server sent.
    Numbers are doubles: finite ones are kept as rationals and every
    arithmetic operation rounds to binary64.  Handlers that await a REST
    call are split at the await: the outcome of the call, and whatever
    the live channel delivers in the meantime, are inputs of the
    model. *)

From Stdlib Require Import QArith Qpower Qcanon ZArith Lia Lqa Bool.
From Stdlib Require SpecFloat.
From stdpp Require Import base numbers strings pretty list gmap.

Local Open Scope Qc_scope.
Local Open Scope string_scope.
Local Open Scope list_scope.

(** ** JavaScript values *)

Module Js.

(** A JavaScript number: a double.  A finite double is kept as the
    rational it denotes, next to the two infinities and NaN.  Arithmetic
    takes the exact result and rounds it to the nearest double
    ([round64]).  The sign of a zero is not kept.  It cannot be seen
    through [===], [>] or [Math.max(0, _)]; it could be seen by dividing
    by a zero, and the only divisors here are the width and the height
    of a rectangle, which are not negative zeros. *)
Inductive num :=
  | Fin (q : Qc)
  | PosInf
  | NegInf
  | NaN.

(** *** Rounding to binary64 *)

(** 53 bits of precision, exponents below 1024. *)
Definition prec : Z := 53.
Definition emax : Z := 1024.

(** The number that a binary64 datum denotes. *)
Definition of_binary64 (x : SpecFloat.spec_float) : num :=
  match x with
  | SpecFloat.S754_zero _ => Fin 0
  | SpecFloat.S754_infinity s => if s then NegInf else PosInf
  | SpecFloat.S754_nan => NaN
  | SpecFloat.S754_finite s m e =>
      let v := Qc_of_Z (Z.pos m) * Q2Qc (Qpower 2 e) in
      Fin (if s then - v else v)
  end.

(** An integer as mantissa with exponent 0, of whatever length: it is
    an operand of the one division below, whose result is rounded. *)
Definition integer (z : Z) : SpecFloat.spec_float :=
  match z with
  | Z0 => SpecFloat.S754_zero false
  | Zpos p => SpecFloat.S754_finite false p 0
  | Zneg p => SpecFloat.S754_finite true p 0
  end.

(** The double nearest to a rational, ties to the even mantissa, and an
    infinity beyond the largest double: numerator divided by denominator
    with the division of the standard library's specification of
    IEEE 754 arithmetic, which rounds the exact quotient once. *)
Definition round64 (q : Qc) : num :=
  of_binary64
    (SpecFloat.SFdiv prec emax (integer (Qnum q)) (integer (Z.pos (Qden q)))).

(** *** Arithmetic *)

(** An infinity multiplied by a finite number: the signs multiply, and
    infinity times zero is NaN. *)
Definition scaled_infinity (positive : bool) (q : Qc) : num :=
  if bool_decide (q = 0) then NaN
  else if bool_decide (0 < q)
       then (if positive then PosInf else NegInf)
       else (if positive then NegInf else PosInf).

(** [a + b] *)
Definition js_add (a b : num) : num :=
  match a, b with
  | NaN, _ | _, NaN => NaN
  | Fin x, Fin y => round64 (x + y)
  | PosInf, NegInf | NegInf, PosInf => NaN
  | PosInf, _ | _, PosInf => PosInf
  | NegInf, _ | _, NegInf => NegInf
  end.

(** [a - b] *)
Definition js_sub (a b : num) : num :=
  match a, b with
  | NaN, _ | _, NaN => NaN
  | Fin x, Fin y => round64 (x - y)
  | PosInf, PosInf | NegInf, NegInf => NaN
  | PosInf, _ | _, NegInf => PosInf
  | NegInf, _ | _, PosInf => NegInf
  end.

(** [a * b] *)
Definition js_mul (a b : num) : num :=
  match a, b with
  | NaN, _ | _, NaN => NaN
  | Fin x, Fin y => round64 (x * y)
  | PosInf, PosInf | NegInf, NegInf => PosInf
  | PosInf, NegInf | NegInf, PosInf => NegInf
  | PosInf, Fin y | Fin y, PosInf => scaled_infinity true y
  | NegInf, Fin y | Fin y, NegInf => scaled_infinity false y
  end.

(** [a / b]: a non-zero number divided by zero is an infinity of its
    sign, zero divided by zero is NaN, a finite number divided by an
    infinity is zero. *)
Definition js_div (a b : num) : num :=
  match a, b with
  | NaN, _ | _, NaN => NaN
  | Fin x, Fin y =>
      if bool_decide (y = 0) then
        if bool_decide (x = 0) then NaN
        else if bool_decide (0 < x) then PosInf else NegInf
      else round64 (x / y)
  | Fin _, _ => Fin 0
  | PosInf, Fin y => if bool_decide (y < 0) then NegInf else PosInf
  | NegInf, Fin y => if bool_decide (y < 0) then PosInf else NegInf
  | _, _ => NaN
  end.

(** [a > b]: false when either is NaN. *)
Definition js_gt (a b : num) : bool :=
  match a, b with
  | NaN, _ | _, NaN => false
  | Fin x, Fin y => bool_decide (y < x)
  | _, PosInf => false
  | PosInf, _ => true
  | NegInf, _ => false
  | _, NegInf => true
  end.

(** The primitive values a JSON document can carry in a field, with
    [num] for numbers.  [undefined] is the absence of a value: a property
    lookup returns [option scalar]. *)
Inductive scalar :=
  | SNull
  | SBool (b : bool)
  | SNum (n : num)
  | SStr (s : string).

Abbreviation jsval := (option scalar).
Abbreviation undefined := (@None scalar).

Definition of_Z (z : Z) : jsval := Some (SNum (Fin (Qc_of_Z z))).
Definition of_string (s : string) : jsval := Some (SStr s).
Definition of_bool (b : bool) : jsval := Some (SBool b).

(** [a === b] on numbers: NaN is different from everything. *)
Definition num_eqb (a b : num) : bool :=
  match a, b with
  | Fin x, Fin y => bool_decide (x = y)
  | PosInf, PosInf => true
  | NegInf, NegInf => true
  | _, _ => false
  end.

Definition scalar_eqb (a b : scalar) : bool :=
  match a, b with
  | SNull, SNull => true
  | SBool x, SBool y => eqb x y
  | SNum x, SNum y => num_eqb x y
  | SStr x, SStr y => bool_decide (x = y)
  | _, _ => false
  end.

(** [a === b] *)
Definition strict_eq (a b : jsval) : bool :=
  match a, b with
  | None, None => true
  | Some x, Some y => scalar_eqb x y
  | _, _ => false
  end.

(** [Boolean(v)] *)
Definition truthy (v : jsval) : bool :=
  match v with
  | None => false
  | Some SNull => false
  | Some (SBool b) => b
  | Some (SNum (Fin q)) => negb (bool_decide (q = 0))
  | Some (SNum NaN) => false
  | Some (SNum _) => true
  | Some (SStr s) => negb (bool_decide (s = ""))
  end.

(** [a || b] *)
Definition or_else (a b : jsval) : jsval := if truthy a then a else b.

(** [!v] *)
Definition negate (v : jsval) : bool := negb (truthy v).

End Js.

Import Js.

(** ** The device list ([RoomPage], state [devices]) *)

(** An element of the [devices] array.  The loader and the live channel
    store what the server sent, so an element need not be a device
    record: it is a flat JSON object (property names to scalars), a
    string, a number, a boolean or a flat array.  [null] is left out:
    reading a property of it throws. *)
Inductive device :=
  | Obj (fields : gmap string scalar)
  | Str (s : string)
  | Num (n : num)
  | Bool (b : bool)
  | Arr (items : list scalar).

(** The characters of a string, each a string of its own (a string is
    a sequence of one-byte characters here, which is what a JavaScript
    string of ASCII characters is). *)
Fixpoint characters (s : string) : list scalar :=
  match s with
  | EmptyString => []
  | String c rest => SStr (String c EmptyString) :: characters rest
  end.

(** The elements of an array, or the characters of a string, under
    their indices written in decimal. *)
Definition indexed (l : list scalar) : gmap string scalar :=
  list_to_map (imap (λ (i : nat) v, (pretty i, v)) l).

(** The own enumerable properties of a value: those of an object, the
    indices of a string or an array, none for a number or a boolean.
    They are what a spread copies, and what [d.k] reads for a name [k]
    that is not inherited ([length], [constructor] and the like, which
    the code does not read). *)
Definition own (d : device) : gmap string scalar :=
  match d with
  | Obj fields => fields
  | Str s => indexed (characters s)
  | Num _ | Bool _ => ∅
  | Arr items => indexed items
  end.

(** A property name that starts with a digit, as every index does. *)
Definition starts_with_digit (k : string) : bool :=
  match k with
  | String c _ =>
      (48 <=? Ascii.nat_of_ascii c)%nat && (Ascii.nat_of_ascii c <=? 57)%nat
  | EmptyString => false
  end.

(** [d.k] *)
Global Instance device_lookup : Lookup string scalar device :=
  λ k d, own d !! k.
Global Arguments device_lookup _ !_ /.

(** [{ ...d, k: v }] *)
Global Instance device_insert : Insert string scalar device :=
  λ k v d, Obj (<[k := v]> (own d)).

(** [{ ...d, ...u }]: a new object; the fields of [u] overwrite the
    same-named fields of [d]; the other fields of [d] are kept. *)
Definition spread (d u : device) : device := Obj (own u ∪ own d).

(** [Boolean(d)]: objects and arrays are truthy. *)
Definition device_truthy (d : device) : bool :=
  match d with
  | Obj _ | Arr _ => true
  | Str s => truthy (Some (SStr s))
  | Num n => truthy (Some (SNum n))
  | Bool b => b
  end.

(** [applyDeviceUpdate(devices, updatedDevice)] *)
Definition applyDeviceUpdate (devices : list device) (updatedDevice : device)
  : list device :=
  let exists_ :=
    existsb (λ d, strict_eq (d !! "id") (updatedDevice !! "id")) devices in
  if negb exists_ then
    devices ++ [updatedDevice]
  else
    map (λ d, if strict_eq (d !! "id") (updatedDevice !! "id")
              then spread d updatedDevice else d) devices.

(** The upsert calls of a run, in order of arrival. *)
Definition upsert_all (devices : list device) (payloads : list device)
  : list device :=
  foldl applyDeviceUpdate devices payloads.

(** The left-to-right shallow merge of partial payloads over a record, as
    the specification words it. *)
Definition merge_all (d : device) (payloads : list device) : device :=
  foldl spread d payloads.

(** ** The REST client ([api.js]) *)

Module Api.

(** The body of an HTTP response: a JSON object, or anything else (a
    string, [null], nothing at all), on which [.detail] is undefined. *)
Inductive body :=
  | BObject (o : gmap string scalar)
  | BOther (v : jsval).

(** [config] of a request, as far as the interceptor reads it. *)
Record axios_config := {
  cfg_baseURL : option string;
  cfg_url : option string;
  cfg_method : option string;
}.

Record axios_response := {
  resp_status : Z;
  resp_data : body;
  resp_config : option axios_config;
}.

(** The error axios hands to a response-error interceptor: [response] is
    missing when no response was received. *)
Record axios_error := {
  ax_message : string;
  ax_config : option axios_config;
  ax_response : option axios_response;
}.

(** The object the interceptor rejects with.  [message] is set on a
    network error only, [status] and [data] on an API error only. *)
Record rejection := {
  rej_type : string;
  rej_message : option string;
  rej_status : option Z;
  rej_data : option body;
  rej_url : string;
  rej_originalError : axios_error;
}.

(** How a request settles for the caller of the axios instance.  A
    rejection that carries the raw axios error is what the caller would
    see without the interceptor. *)
Inductive settled :=
  | Fulfilled (response : axios_response)
  | Rejected (reason : rejection)
  | RejectedRaw (error : axios_error).

(** [a || b] on a string that may be undefined *)
Definition str_or (a : option string) (b : string) : string :=
  match a with
  | Some s => if bool_decide (s = "") then b else s
  | None => b
  end.

(** [error.config?.baseURL || API_BASE_URL || ""] followed by
    [error.config?.url || ""] *)
Definition fullUrl (API_BASE_URL : string) (config : option axios_config)
  : string :=
  let base := str_or (config ≫= cfg_baseURL) (str_or (Some API_BASE_URL) "") in
  let path := str_or (config ≫= cfg_url) "" in
  String.append base path.

(** The second argument of [api.interceptors.response.use]; its
    [console.error] calls are left out. *)
Definition onResponseError (API_BASE_URL : string) (error : axios_error)
  : settled :=
  match ax_response error with
  | None =>
      Rejected {| rej_type := "network_error";
                  rej_message := Some "Unable to reach the server.";
                  rej_status := None;
                  rej_data := None;
                  rej_url := fullUrl API_BASE_URL (ax_config error);
                  rej_originalError := error |}
  | Some response =>
      Rejected {| rej_type := "api_error";
                  rej_message := None;
                  rej_status := Some (resp_status response);
                  rej_data := Some (resp_data response);
                  rej_url := fullUrl API_BASE_URL (resp_config response);
                  rej_originalError := error |}
  end.

(** What the transport produced before the interceptors run: a response
    with a 2xx status, or an error. *)
Inductive transport :=
  | TResponse (response : axios_response)
  | TError (error : axios_error).

(** [api.interceptors.response.use((response) => response, (error) => ...)] *)
Definition responseInterceptor (API_BASE_URL : string) (t : transport)
  : settled :=
  match t with
  | TResponse response => Fulfilled response
  | TError error => onResponseError API_BASE_URL error
  end.

(** The domain calls that the room view makes. *)
Inductive request :=
  | getRooms                                   (* GET /rooms/ *)
  | getRoomDevices (roomId : num)              (* GET /devices/?room= *)
  | createDevice (payload : gmap string scalar) (* POST /devices/ *)
  | updateDevice (id : jsval) (payload : gmap string scalar)
                                               (* PATCH /devices/{id}/ *)
  | sendDeviceCommand (id : jsval) (payload : gmap string scalar).
                                               (* POST /devices/{id}/command/ *)

Definition is_post_devices (r : request) : bool :=
  match r with createDevice _ => true | _ => false end.

(** [err?.data?.detail] *)
Definition detail_of (err : rejection) : jsval :=
  match rej_data err with
  | Some (BObject o) => o !! "detail"
  | _ => None
  end.

End Api.

Import Api.

(** ** [RoomPage] *)

(** The component state that the modelled handlers read or write. *)
Record page := {
  numericRoomId : num;
  room : option (gmap string scalar);
  devices : list device;
  loading : bool;
  refreshing : bool;
  error : jsval;
  newDeviceName : string;
  newDeviceType : string;
  newDeviceLocation : string;
  roomName : jsval;
  roomSlug : jsval;
  roomBackgroundUrl : jsval;
  backgroundFile : option string;
  backgroundPreview : jsval;
}.

(** Where [navigate] is sent. *)
Inductive route :=
  | RLogin                          (* "/login" *)
  | RDeviceSettings (id : jsval).   (* `/devices/${deviceId}/settings` *)

(** What a handler does to the world outside the component state. *)
Inductive effect :=
  | Call (r : request)
  | ConsoleLog (tag : string)
  | ConsoleError (tag : string)
  | Navigate (to : route).

(** Handlers run in a state-and-output monad: they update the component
    state and append to the trace of effects. *)
Definition M (A : Type) : Type := page → A * page * list effect.

Global Instance M_ret : MRet M := λ A a st, (a, st, []).

Global Instance M_bind : MBind M := λ A B k m st,
  let '(a, st1, out1) := m st in
  let '(b, st2, out2) := k a st1 in
  (b, st2, out1 ++ out2).

Definition emit (e : effect) : M unit := λ st, ((), st, [e]).
Definition modify (f : page → page) : M unit := λ st, ((), f st, []).
Definition read {A} (f : page → A) : M A := λ st, (f st, st, []).
Definition skip : M unit := mret ().
Definition when (b : bool) (m : M unit) : M unit := if b then m else skip.

(** The state and the trace a handler leaves behind. *)
Definition state_after {A} (m : M A) (st : page) : page := (m st).1.2.
Definition trace_of {A} (m : M A) (st : page) : list effect := (m st).2.
Definition result_of {A} (m : M A) (st : page) : A := (m st).1.1.

Definition calls (out : list effect) : list request :=
  omap (λ e, match e with Call r => Some r | _ => None end) out.

Definition with_devices (f : list device → list device) (st : page) : page :=
  {| numericRoomId := numericRoomId st; room := room st;
     devices := f (devices st);
     loading := loading st; refreshing := refreshing st; error := error st;
     newDeviceName := newDeviceName st; newDeviceType := newDeviceType st;
     newDeviceLocation := newDeviceLocation st;
     roomName := roomName st; roomSlug := roomSlug st;
     roomBackgroundUrl := roomBackgroundUrl st;
     backgroundFile := backgroundFile st;
     backgroundPreview := backgroundPreview st |}.

Definition with_error (v : jsval) (st : page) : page :=
  {| numericRoomId := numericRoomId st; room := room st;
     devices := devices st;
     loading := loading st; refreshing := refreshing st; error := v;
     newDeviceName := newDeviceName st; newDeviceType := newDeviceType st;
     newDeviceLocation := newDeviceLocation st;
     roomName := roomName st; roomSlug := roomSlug st;
     roomBackgroundUrl := roomBackgroundUrl st;
     backgroundFile := backgroundFile st;
     backgroundPreview := backgroundPreview st |}.

Definition with_busy (l r : bool) (st : page) : page :=
  {| numericRoomId := numericRoomId st; room := room st;
     devices := devices st;
     loading := l; refreshing := r; error := error st;
     newDeviceName := newDeviceName st; newDeviceType := newDeviceType st;
     newDeviceLocation := newDeviceLocation st;
     roomName := roomName st; roomSlug := roomSlug st;
     roomBackgroundUrl := roomBackgroundUrl st;
     backgroundFile := backgroundFile st;
     backgroundPreview := backgroundPreview st |}.

Definition with_room (r : option (gmap string scalar)) (st : page) : page :=
  {| numericRoomId := numericRoomId st; room := r;
     devices := devices st;
     loading := loading st; refreshing := refreshing st; error := error st;
     newDeviceName := newDeviceName st; newDeviceType := newDeviceType st;
     newDeviceLocation := newDeviceLocation st;
     roomName := roomName st; roomSlug := roomSlug st;
     roomBackgroundUrl := roomBackgroundUrl st;
     backgroundFile := backgroundFile st;
     backgroundPreview := backgroundPreview st |}.

Definition with_new_device_form (name type location : string) (st : page)
  : page :=
  {| numericRoomId := numericRoomId st; room := room st;
     devices := devices st;
     loading := loading st; refreshing := refreshing st; error := error st;
     newDeviceName := name; newDeviceType := type;
     newDeviceLocation := location;
     roomName := roomName st; roomSlug := roomSlug st;
     roomBackgroundUrl := roomBackgroundUrl st;
     backgroundFile := backgroundFile st;
     backgroundPreview := backgroundPreview st |}.

Definition with_room_form (name slug url : jsval) (file : option string)
    (preview : jsval) (st : page) : page :=
  {| numericRoomId := numericRoomId st; room := room st;
     devices := devices st;
     loading := loading st; refreshing := refreshing st; error := error st;
     newDeviceName := newDeviceName st; newDeviceType := newDeviceType st;
     newDeviceLocation := newDeviceLocation st;
     roomName := name; roomSlug := slug;
     roomBackgroundUrl := url;
     backgroundFile := file;
     backgroundPreview := preview |}.

Definition setDevices (f : list device → list device) : M unit :=
  modify (with_devices f).
Definition setError (v : jsval) : M unit := modify (with_error v).
Definition setLoading (b : bool) : M unit :=
  modify (λ st, with_busy b (refreshing st) st).
Definition setRefreshing (b : bool) : M unit :=
  modify (λ st, with_busy (loading st) b st).
Definition setRoom (r : option (gmap string scalar)) : M unit :=
  modify (with_room r).

(** [syncRoomForm(roomData)] *)
Definition syncRoomForm (roomData : option (gmap string scalar)) : M unit :=
  match roomData with
  | None => skip
  | Some r =>
      modify (with_room_form
                (or_else (r !! "name") (of_string ""))
                (or_else (r !! "slug") (of_string ""))
                (or_else (r !! "background_image_url") (of_string ""))
                None
                (or_else (r !! "background_image_url") (of_string "")))
  end.

(** How an awaited REST call ends for the handler that awaits it. *)
Inductive rest_outcome :=
  | Resolved
  | Failed (err : rejection).

(** How the two requests of [load] end: both responses' [data] (an array,
    or [None] for a falsy body), or the first rejection. *)
Inductive load_outcome :=
  | Loaded (roomsData : option (list (gmap string scalar)))
           (devicesData : option (list device))
  | LoadFailed (err : rejection).

(** [load(opts)] up to [await Promise.all(...)] *)
Definition load_begin (isRefresh : bool) : M unit :=
  setError (of_string "") ;;
  (if isRefresh then setRefreshing true else setLoading true) ;;
  emit (Call getRooms) ;;
  roomId ← read numericRoomId ;
  emit (Call (getRoomDevices roomId)).

(** [load(opts)] from the point where [Promise.all] has settled.  A
    rejection comes from the interceptor and has no [response] property:
    [err?.response?.status] and [err?.response?.data?.detail] are
    [undefined]. *)
Definition load_end (o : load_outcome) : M unit :=
  match o with
  | Loaded roomsData devicesData =>
      let rooms := default [] roomsData in
      let devicesData := default [] devicesData in
      roomId ← read numericRoomId ;
      let foundRoom :=
        find (λ r, strict_eq (r !! "id") (Some (SNum roomId))) rooms in
      when (bool_decide (foundRoom = None))
           (setError (of_string "Room not found.")) ;;
      setRoom foundRoom ;;
      syncRoomForm foundRoom ;;
      setDevices (λ _, devicesData)
  | LoadFailed err =>
      emit (ConsoleError "Room load error:") ;;
      let status := rej_status err in
      if bool_decide (status = Some 401%Z) || bool_decide (status = Some 403%Z)
      then emit (Navigate RLogin)
      else
        setError (or_else (detail_of err)
                   (or_else undefined (of_string "Failed to load room data.")))
  end ;;
  setLoading false ;;
  setRefreshing false.

(** *** The live channel *)

(** The message object [JSON.parse] returned, as far as [onmessage]
    looks at it: [data.type], which is only compared with two strings;
    [data.device], any value ([None] when the property is missing or
    [null]); [data.devices], the elements of an array ([None] when
    [Array.isArray] is false). *)
Record ws_data := {
  data_type : jsval;
  data_device : option device;
  data_devices : option (list device);
}.

(** A parsed document is [null] or something whose properties can be
    read. *)
Inductive json_doc :=
  | JNull
  | JData (data : ws_data).

Inductive exn :=
  | SyntaxError
  | TypeError.

Inductive completion :=
  | Normal
  | Throw (e : exn).

Section LiveChannel.

(** [JSON.parse]; [None] when it throws a [SyntaxError]. *)
Variable JSON_parse : string → option json_doc.

(** The [try] block of [socket.onmessage]. *)
Definition onmessage_try (event_data : string) : M completion :=
  match JSON_parse event_data with
  | None => mret (Throw SyntaxError)
  | Some JNull => mret (Throw TypeError)
  | Some (JData data) =>
      match data_device data with
      | Some dev =>
          when (strict_eq (data_type data) (of_string "device_update")
                && device_truthy dev)
               (setDevices (λ prev, applyDeviceUpdate prev dev))
      | None => skip
      end ;;
      match data_devices data with
      | Some snapshot =>
          when (strict_eq (data_type data) (of_string "devices_snapshot"))
               (setDevices (λ _, snapshot))
      | None => skip
      end ;;
      mret Normal
  end.

(** [socket.onmessage] *)
Definition onmessage (event_data : string) : M completion :=
  emit (ConsoleLog "[ws] message") ;;
  c ← onmessage_try event_data ;
  match c with
  | Normal => mret Normal
  | Throw _ =>
      emit (ConsoleError "[ws] failed to parse message") ;; mret Normal
  end.

(** The messages that arrive while a handler is suspended at an await. *)
Fixpoint deliver (messages : list string) : M unit :=
  match messages with
  | [] => skip
  | m :: rest => onmessage m ;; deliver rest
  end.

(** What happens around the awaits of a handler that issues one command
    and then reloads: the messages delivered while the command is in
    flight, how the command ends, the messages delivered during the
    reload, and how the reload ends. *)
Record schedule := {
  during_command : list string;
  command_outcome : rest_outcome;
  during_reload : list string;
  reload_outcome : load_outcome;
}.

(** [await load({ isRefresh: true })] *)
Definition reload (s : schedule) : M unit :=
  load_begin true ;;
  deliver (during_reload s) ;;
  load_end (reload_outcome s).

(** *** Devices logic *)

Definition isDigital (device : device) : bool :=
  strict_eq (device !! "signal_type") (of_string "digital")
  || strict_eq (device !! "device_type") (of_string "switch")
  || strict_eq (device !! "device_type") (of_string "light").

(** [handleToggleDevice(device)] up to [await sendDeviceCommand(...)];
    the result tells whether the command was issued. *)
Definition handleToggleDevice_begin (device : device) : M bool :=
  setError (of_string "") ;;
  if negb (isDigital device) then mret false
  else
    let isOn := truthy (device !! "is_on") in
    let nextState := negb isOn in
    setDevices (λ prev,
      map (λ d, if strict_eq (d !! "id") (device !! "id")
                then <["is_on" := SBool nextState]> d else d) prev) ;;
    emit (Call (sendDeviceCommand (device !! "id")
             {[ "state" := SStr (if nextState then "on" else "off") ]})) ;;
    mret true.

(** The [catch] block of [handleToggleDevice].  The rejection comes from
    the interceptor and has no [response] property, so the middle operand
    of the fallback chain is [undefined]. *)
Definition handleToggleDevice_catch (device : device) (err : rejection)
  : M unit :=
  emit (ConsoleError "Toggle device error:") ;;
  setError (or_else (detail_of err)
             (or_else undefined (of_string "Could not toggle device."))) ;;
  setDevices (λ prev,
    map (λ d, if strict_eq (d !! "id") (device !! "id")
              then <["is_on" := SBool (negate (d !! "is_on"))]> d else d) prev).

(** [handleToggleDevice(device)] *)
Definition handleToggleDevice (device : device) (s : schedule) : M unit :=
  issued ← handleToggleDevice_begin device ;
  if (issued : bool) then
    deliver (during_command s) ;;
    match command_outcome s with
    | Resolved => reload s
    | Failed err => handleToggleDevice_catch device err
    end
  else skip.

(** [handleCreateDevice(e)] up to [await createDevice(...)]; the result
    tells whether the request was issued. *)
Definition handleCreateDevice_begin : M bool :=
  name ← read newDeviceName ;
  if bool_decide (name = "") then mret false
  else
    setError (of_string "") ;;
    deviceType ← read newDeviceType ;
    let isSensor := bool_decide (deviceType = "sensor") in
    let deviceKind := if isSensor then "sensor" else "actuator" in
    let signalType := if isSensor then "analog" else "digital" in
    roomId ← read numericRoomId ;
    location ← read newDeviceLocation ;
    emit (Call (createDevice
            {[ "room" := SNum roomId;
               "name" := SStr name;
               "device_type" := SStr deviceType;
               "device_kind" := SStr deviceKind;
               "signal_type" := SStr signalType;
               "location" := SStr (str_or (Some location) "");
               "is_on" := SBool false ]})) ;;
    mret true.

(** The [catch] block of [handleCreateDevice]. *)
Definition handleCreateDevice_catch (err : rejection) : M unit :=
  emit (ConsoleError "Create device error:") ;;
  setError (or_else (detail_of err)
             (or_else undefined (of_string "Could not create device."))).

(** [handleCreateDevice(e)] *)
Definition handleCreateDevice (s : schedule) : M unit :=
  issued ← handleCreateDevice_begin ;
  if (issued : bool) then
    deliver (during_command s) ;;
    match command_outcome s with
    | Resolved =>
        modify (with_new_device_form "" "light" "") ;;
        reload s
    | Failed err => handleCreateDevice_catch err
    end
  else skip.

(** [handleDevicePositionPreview(deviceId, xPercent, yPercent)] *)
Definition handleDevicePositionPreview (deviceId : jsval)
    (xPercent yPercent : num) : M unit :=
  setDevices (λ prev,
    map (λ d, if strict_eq (d !! "id") deviceId
              then <["position_y" := SNum yPercent]>
                     (<["position_x" := SNum xPercent]> d)
              else d) prev).

(** [handleDevicePositionCommit(deviceId, xPercent, yPercent)]: the
    request, and the [catch] block when it fails. *)
Definition handleDevicePositionCommit (deviceId : jsval)
    (xPercent yPercent : num) (o : rest_outcome) : M unit :=
  emit (Call (updateDevice deviceId
          {[ "position_x" := SNum xPercent;
             "position_y" := SNum yPercent ]})) ;;
  match o with
  | Resolved => skip
  | Failed _ => emit (ConsoleError "Update device position error:")
  end.

(** [handleOpenDeviceSettings(deviceId)] *)
Definition handleOpenDeviceSettings (deviceId : jsval) : M unit :=
  emit (Navigate (RDeviceSettings deviceId)).

End LiveChannel.

(** ** [RoomCanvas] *)

Module Canvas.

Local Open Scope Qc_scope.

(** [Math.max(a, b)] and [Math.min(a, b)]: NaN if either argument is. *)
Definition Math_max (a b : num) : num :=
  match a, b with
  | NaN, _ | _, NaN => NaN
  | PosInf, _ | _, PosInf => PosInf
  | NegInf, x | x, NegInf => x
  | Fin x, Fin y => Fin (if bool_decide (x ≤ y) then y else x)
  end.

Definition Math_min (a b : num) : num :=
  match a, b with
  | NaN, _ | _, NaN => NaN
  | NegInf, _ | _, NegInf => NegInf
  | PosInf, x | x, PosInf => x
  | Fin x, Fin y => Fin (if bool_decide (x ≤ y) then x else y)
  end.

(** The rectangle [getBoundingClientRect()] returns; its fields, like
    the coordinates of a pointer event, are finite doubles. *)
Record DOMRect := {
  rect_left : Qc;
  rect_top : Qc;
  rect_width : Qc;
  rect_height : Qc;
}.

(** The coordinates of a pointer event. *)
Record pointer := {
  clientX : Qc;
  clientY : Qc;
}.

Definition hundred : Qc := Qc_of_Z 100.
Definition nine : Qc := Qc_of_Z 9.

(** [getPercentFromPointer(event)]; [container] is [containerRef.current],
    measured when the event is handled. *)
Definition getPercentFromPointer (container : option DOMRect)
    (event : pointer) : num * num :=
  match container with
  | None => (Fin 0, Fin 0)
  | Some rect =>
      let x := js_mul (js_div (js_sub (Fin (clientX event))
                                      (Fin (rect_left rect)))
                              (Fin (rect_width rect))) (Fin hundred) in
      let y := js_mul (js_div (js_sub (Fin (clientY event))
                                      (Fin (rect_top rect)))
                              (Fin (rect_height rect))) (Fin hundred) in
      (Math_min (Fin hundred) (Math_max (Fin 0) x),
       Math_min (Fin hundred) (Math_max (Fin 0) y))
  end.

(** The component's own state: [draggingId], [dragStartRef.current] and
    [didMoveRef.current]. *)
Record canvas := {
  draggingId : jsval;
  dragStartRef : Qc * Qc;
  didMoveRef : bool;
}.

Definition idle : canvas :=
  {| draggingId := Some SNull; dragStartRef := (0, 0); didMoveRef := false |}.

(** The props [RoomDevicesView] passes in, as calls made by the handlers. *)
Inductive callback :=
  | onPositionPreview (deviceId : jsval) (x y : num)
  | onPositionCommit (deviceId : jsval) (x y : num)
  | onOpenDeviceSettings (deviceId : jsval).

(** [handlePointerDown(e, deviceId)] *)
Definition handlePointerDown (container : option DOMRect) (e : pointer)
    (deviceId : jsval) (c : canvas) : canvas * list callback :=
  let '(x, y) := getPercentFromPointer container e in
  ({| draggingId := deviceId;
      dragStartRef := (clientX e, clientY e);
      didMoveRef := false |},
   [onPositionPreview deviceId x y]).

(** [dx * dx + dy * dy] of a pointer position against the drag start *)
Definition distanceSq (start : Qc * Qc) (e : pointer) : num :=
  let dx := js_sub (Fin (clientX e)) (Fin start.1) in
  let dy := js_sub (Fin (clientY e)) (Fin start.2) in
  js_add (js_mul dx dx) (js_mul dy dy).

(** [handlePointerMove(e)] *)
Definition handlePointerMove (container : option DOMRect) (e : pointer)
    (c : canvas) : canvas * list callback :=
  if negate (draggingId c) then (c, [])
  else
    let moved :=
      if js_gt (distanceSq (dragStartRef c) e) (Fin nine) then true
      else didMoveRef c in
    let '(x, y) := getPercentFromPointer container e in
    ({| draggingId := draggingId c;
        dragStartRef := dragStartRef c;
        didMoveRef := moved |},
     [onPositionPreview (draggingId c) x y]).

(** [finishDrag(e)], bound to both [onPointerUp] and [onPointerLeave] *)
Definition finishDrag (container : option DOMRect) (e : pointer)
    (c : canvas) : canvas * list callback :=
  if negate (draggingId c) then (c, [])
  else
    let finalId := draggingId c in
    let '(x, y) := getPercentFromPointer container e in
    ({| draggingId := Some SNull;
        dragStartRef := dragStartRef c;
        didMoveRef := didMoveRef c |},
     [onPositionPreview finalId x y; onPositionCommit finalId x y]
     ++ (if negb (didMoveRef c) then [onOpenDeviceSettings finalId] else [])).

(** The pointer events the canvas listens to. *)
Inductive pointer_event :=
  | PointerDown (deviceId : jsval) (e : pointer)
  | PointerMove (e : pointer)
  | PointerUp (e : pointer)
  | PointerLeave (e : pointer).

Definition handle (container : option DOMRect) (ev : pointer_event)
    (c : canvas) : canvas * list callback :=
  match ev with
  | PointerDown deviceId e => handlePointerDown container e deviceId c
  | PointerMove e => handlePointerMove container e c
  | PointerUp e => finishDrag container e c
  | PointerLeave e => finishDrag container e c
  end.

(** A run of events, each with the container as measured at that event;
    the calls are collected in order. *)
Fixpoint run (events : list (option DOMRect * pointer_event)) (c : canvas)
  : canvas * list callback :=
  match events with
  | [] => (c, [])
  | (container, ev) :: rest =>
      let '(c1, out1) := handle container ev c in
      let '(c2, out2) := run rest c1 in
      (c2, out1 ++ out2)
  end.

(** A gesture on a device marker: pointer-down, moves, and the release,
    which is a pointer-up or the pointer leaving the canvas. *)
Definition gesture (deviceId : jsval) (down : option DOMRect * pointer)
    (moves : list (option DOMRect * pointer))
    (leave : bool) (release : option DOMRect * pointer)
  : list (option DOMRect * pointer_event) :=
  (down.1, PointerDown deviceId down.2)
    :: map (λ m, (m.1, PointerMove m.2)) moves
    ++ [(release.1,
         if leave then PointerLeave release.2 else PointerUp release.2)].

(** For some pointer-move of the list, [distanceSq > 9] holds. *)
Definition moved_beyond (start : Qc * Qc)
    (moves : list (option DOMRect * pointer)) : bool :=
  existsb (λ m, js_gt (distanceSq start m.2) (Fin nine)) moves.

Definition opens_settings (cb : callback) : bool :=
  match cb with onOpenDeviceSettings _ => true | _ => false end.

Definition is_commit (cb : callback) : bool :=
  match cb with onPositionCommit _ _ _ => true | _ => false end.

(** A percentage that lies in [0, 100]. *)
Definition percent (n : num) : Prop :=
  match n with
  | Fin q => 0 ≤ q ∧ q ≤ hundred
  | _ => False
  end.

Definition percent_b (n : num) : bool :=
  match n with
  | Fin q => bool_decide (0 ≤ q) && bool_decide (q ≤ hundred)
  | _ => false
  end.

(** The coordinates a call carries are percentages. *)
Definition callback_in_range (cb : callback) : Prop :=
  match cb with
  | onPositionPreview _ x y => percent x ∧ percent y
  | onPositionCommit _ x y => percent x ∧ percent y
  | onOpenDeviceSettings _ => True
  end.

(** Zero, a negative number or minus infinity. *)
Definition not_positive (n : num) : Prop :=
  match n with
  | Fin r => r ≤ 0
  | NegInf => True
  | _ => False
  end.

(** A container that has been laid out with a positive size, or none. *)
Definition positive_size (container : option DOMRect) : Prop :=
  match container with
  | None => True
  | Some rect => 0 < rect_width rect ∧ 0 < rect_height rect
  end.

End Canvas.

Import Canvas.

(** How [RoomPage] serves the calls of the canvas; [o] is how the PATCH
    of a position commit ends. *)
Definition serve (o : rest_outcome) (cb : callback) : M unit :=
  match cb with
  | onPositionPreview deviceId x y => handleDevicePositionPreview deviceId x y
  | onPositionCommit deviceId x y => handleDevicePositionCommit deviceId x y o
  | onOpenDeviceSettings deviceId => handleOpenDeviceSettings deviceId
  end.

(** ** Properties of the device list *)

(** [d.id] *)
Definition id_of (d : device) : jsval := d !! "id".

(** Two records share an id when [d1.id === d2.id], the comparison the
    code itself uses to find a record. *)
Definition same_id (d1 d2 : device) : bool :=
  strict_eq (d1 !! "id") (d2 !! "id").

(** No two records of the list share an id. *)
Fixpoint ids_unique (l : list device) : bool :=
  match l with
  | [] => true
  | d :: rest => negb (existsb (same_id d) rest) && ids_unique rest
  end.

(** A stored coordinate is acceptable when it is a percentage; a record
    that has no coordinate yet ([undefined] or [null]) is drawn at the
    canvas default and is acceptable too. *)
Definition position_ok (v : jsval) : bool :=
  match v with
  | None | Some SNull => true
  | Some (SNum n) => percent_b n
  | Some _ => false
  end.

Definition positions_ok (d : device) : bool :=
  position_ok (d !! "position_x") && position_ok (d !! "position_y").

Definition all_positions_ok (l : list device) : bool :=
  forallb positions_ok l.

(** [Boolean(d.is_on)] of the records with the given id. *)
Definition is_on_of (id : jsval) (l : list device) : list bool :=
  map (λ d, truthy (d !! "is_on"))
      (filter (λ d, strict_eq (d !! "id") id = true) l).

(** ** The effect of one message on the device list *)

(** What a message does to the device list. *)
Definition received (doc : option json_doc) (store : list device)
  : list device :=
  match doc with
  | Some (JData data) =>
      if strict_eq (data_type data) (of_string "device_update") then
        match data_device data with
        | Some dev =>
            if device_truthy dev then applyDeviceUpdate store dev else store
        | None => store
        end
      else if strict_eq (data_type data) (of_string "devices_snapshot") then
        match data_devices data with
        | Some snapshot => snapshot
        | None => store
        end
      else store
  | _ => store
  end.

(** ** Scenarios *)

Module Scenario.

Definition number (z : Z) : scalar := SNum (Fin (Qc_of_Z z)).

(** A freshly mounted page for a room, holding the given devices. *)
Definition mounted (roomId : Z) (store : list device) : page :=
  {| numericRoomId := Fin (Qc_of_Z roomId); room := None;
     devices := store;
     loading := false; refreshing := false; error := of_string "";
     newDeviceName := ""; newDeviceType := "light";
     newDeviceLocation := "";
     roomName := of_string ""; roomSlug := of_string "";
     roomBackgroundUrl := of_string "";
     backgroundFile := None;
     backgroundPreview := of_string "" |}.

(** The same page while an error banner is showing. *)
Definition showing (message : string) (st : page) : page :=
  with_error (of_string message) st.

(** The same page with the add-device form filled in. *)
Definition typed (name type location : string) (st : page) : page :=
  with_new_device_form name type location st.

Definition lamp : device :=
  Obj {[ "id" := number 7; "name" := SStr "Lamp";
         "device_type" := SStr "light"; "is_on" := SBool false;
         "position_x" := number 10; "position_y" := number 20 ]}.

Definition thermometer : device :=
  Obj {[ "id" := number 8; "name" := SStr "Thermometer";
         "device_type" := SStr "sensor"; "signal_type" := SStr "analog" ]}.

(** The rejection the interceptor produces when the server is down. *)
Definition server_down : rejection :=
  {| rej_type := "network_error";
     rej_message := Some "Unable to reach the server.";
     rej_status := None; rej_data := None;
     rej_url := "http://localhost:8002/api/devices/7/command/";
     rej_originalError :=
       {| ax_message := "Network Error"; ax_config := None;
          ax_response := None |} |}.

(** The rejection for a response with the given status and [detail]. *)
Definition refused (status : Z) (detail : string) : rejection :=
  {| rej_type := "api_error";
     rej_message := None;
     rej_status := Some status;
     rej_data := Some (BObject {[ "detail" := SStr detail ]});
     rej_url := "http://localhost:8002/api/devices/";
     rej_originalError :=
       {| ax_message := "Request failed";
          ax_config := None;
          ax_response :=
            Some {| resp_status := status;
                    resp_data := BObject {[ "detail" := SStr detail ]};
                    resp_config := None |} |} |}.

(** A parser for a channel on which every message is the given document. *)
Definition always (doc : json_doc) : string → option json_doc :=
  λ _, Some doc.

Definition device_update (dev : device) : json_doc :=
  JData {| data_type := of_string "device_update";
           data_device := Some dev; data_devices := None |}.

Definition devices_snapshot (l : list device) : json_doc :=
  JData {| data_type := of_string "devices_snapshot";
           data_device := None; data_devices := Some l |}.

(** Nothing arrives on the channel; the command ends as given and the
    reload, if there is one, returns the given device list. *)
Definition quiet (o : rest_outcome) (reloaded : list device) : schedule :=
  {| during_command := []; command_outcome := o;
     during_reload := [];
     reload_outcome := Loaded (Some []) (Some reloaded) |}.

(** One message arrives while the command is in flight. *)
Definition racing (o : rest_outcome) : schedule :=
  {| during_command := ["message"]; command_outcome := o;
     during_reload := [];
     reload_outcome := Loaded (Some []) (Some []) |}.

End Scenario.

(** Every device record that a parsed message carries has acceptable
    coordinates. *)
Definition message_positions_ok (doc : option json_doc) : bool :=
  match doc with
  | Some (JData data) =>
      from_option positions_ok true (data_device data)
      && from_option all_positions_ok true (data_devices data)
  | _ => true
  end.

Module Room.

(** A canvas 200px wide and 100px high at the top left of the viewport. *)
Definition canvas_rect : DOMRect :=
  {| rect_left := 0; rect_top := 0;
     rect_width := Qc_of_Z 200; rect_height := Qc_of_Z 100 |}.

Definition at_ (x y : Z) : option DOMRect * pointer :=
  (Some canvas_rect, {| clientX := Qc_of_Z x; clientY := Qc_of_Z y |}).

(** The double that a decimal literal denotes: the one nearest to the
    fraction written. *)
Definition double (numerator : Z) (denominator : positive) : Qc :=
  match round64 (Q2Qc (numerator # denominator)) with
  | Fin q => q
  | _ => 0%Qc
  end.

End Room.

(** The add-device form: name, type, location. *)
Definition new_device_form (st : page) : string * string * string :=
  (newDeviceName st, newDeviceType st, newDeviceLocation st).

(** The payload [handleCreateDevice] builds from the form. *)
Definition new_device_payload (st : page) : gmap string scalar :=
  let isSensor := bool_decide (newDeviceType st = "sensor") in
  {[ "room" := SNum (numericRoomId st);
     "name" := SStr (newDeviceName st);
     "device_type" := SStr (newDeviceType st);
     "device_kind" := SStr (if isSensor then "sensor" else "actuator");
     "signal_type" := SStr (if isSensor then "analog" else "digital");
     "location" := SStr (newDeviceLocation st);
     "is_on" := SBool false ]}.

(** ** The base URL and the stored credentials ([api.js], parts 1, 3, 5) *)

Module Auth.

(** The character of the one-character string "/". *)
Definition slash : Ascii.ascii :=
  match "/" with
  | String c _ => c
  | EmptyString => Ascii.zero
  end.

(** [s.replace(/\/+$/, "")]: the longest run of slashes at the end of
    the string is removed. *)
Fixpoint stripTrailingSlashes (s : string) : string :=
  match s with
  | EmptyString => EmptyString
  | String c rest =>
      let rest' := stripTrailingSlashes rest in
      if bool_decide (c = slash) && bool_decide (rest' = EmptyString)
      then EmptyString
      else String c rest'
  end.

(** A string of [n] slashes. *)
Fixpoint slashes (n : nat) : string :=
  match n with
  | O => EmptyString
  | S k => String slash (slashes k)
  end.

(** The last character of a string is a slash. *)
Fixpoint ends_with_slash (s : string) : bool :=
  match s with
  | EmptyString => false
  | String c EmptyString => bool_decide (c = slash)
  | String _ rest => ends_with_slash rest
  end.

(** Part 1 of [api.js]: the default, overridden by
    [process.env.REACT_APP_API_BASE_URL] when that is set, overridden by
    [window.HOME_AUTOMATION_API_BASE_URL] when that is set, then
    normalised. *)
Definition resolve_API_BASE_URL (env window_override : option string)
  : string :=
  let base := "http://localhost:8002/api" in
  let base := str_or env base in
  let base := str_or window_override base in
  stripTrailingSlashes base.

(** [window.localStorage]: keys to strings, or a store every access to
    which throws (the error's message comes with it). *)
Inductive localStorage :=
  | Unavailable (message : string)
  | Items (m : gmap string string).

(** A storage access returns or throws. *)
Inductive access (A : Type) :=
  | Done (a : A)
  | Throws (message : string).
Arguments Done {A} a.
Arguments Throws {A} message.

Definition getItem (key : string) (ls : localStorage)
  : access (option string) :=
  match ls with
  | Unavailable message => Throws message
  | Items m => Done (m !! key)
  end.

Definition setItem (key value : string) (ls : localStorage)
  : access localStorage :=
  match ls with
  | Unavailable message => Throws message
  | Items m => Done (Items (<[key := value]> m))
  end.

Definition removeItem (key : string) (ls : localStorage)
  : access localStorage :=
  match ls with
  | Unavailable message => Throws message
  | Items m => Done (Items (delete key m))
  end.

(** The request configuration, as far as the request interceptor
    touches it: [config.headers], which may be missing. *)
Record request_config := {
  headers : option (gmap string string);
  config : axios_config;
}.

(** The function given to [api.interceptors.request.use]. *)
Definition requestInterceptor (ls : localStorage) (c : request_config)
  : request_config :=
  match getItem "authToken" ls with
  | Done (Some token) =>
      if bool_decide (token = "") then c
      else
        {| headers :=
             Some (<["Authorization" := String.append "Token " token]>
                     (default ∅ (headers c)));
           config := config c |}
  | Done None => c
  | Throws _ => c
  end.

(** [res.data] of the auth endpoints: [token], [key] (strings when
    present), [user], [profile] (objects when present). *)
Record auth_data := {
  data_token : option string;
  data_key : option string;
  data_user : option (gmap string scalar);
  data_profile : option (gmap string scalar);
}.

(** How [api.post] ends for the auth functions. *)
Inductive post_outcome :=
  | PostResolved (data : auth_data)
  | PostRejected (err : rejection).

(** What an [async] function rejects with: a rejection of the
    interceptor, or an error thrown on the way (with its message). *)
Inductive thrown :=
  | ThrownRejection (r : rejection)
  | ThrownError (message : string).

(** [{ token, user }] *)
Record credentials := {
  cred_token : option string;
  cred_user : option (gmap string scalar);
}.

Inductive auth_settled :=
  | AuthResolved (c : credentials)
  | AuthRejected (e : thrown).

(** [a || b] on strings that may be undefined, keeping the right operand
    as it is. *)
Definition first_truthy (a b : option string) : option string :=
  match a with
  | Some s => if bool_decide (s = "") then b else a
  | None => b
  end.

Definition is_truthy (a : option string) : bool :=
  match a with
  | Some s => negb (bool_decide (s = ""))
  | None => false
  end.

Section Stringify.

(** [JSON.stringify] on a user object. *)
Variable JSON_stringify : gmap string scalar → string.

(** The two [localStorage.setItem] calls that end [login] and [register]. *)
Definition store_credentials (token : option string)
    (user : option (gmap string scalar)) (ls : localStorage)
  : auth_settled * localStorage :=
  match (match token with
         | Some t => if is_truthy token then setItem "authToken" t ls
                     else Done ls
         | None => Done ls
         end) with
  | Throws message => (AuthRejected (ThrownError message), ls)
  | Done ls1 =>
      match (match user with
             | Some u => setItem "authUser" (JSON_stringify u) ls1
             | None => Done ls1
             end) with
      | Throws message => (AuthRejected (ThrownError message), ls1)
      | Done ls2 =>
          (AuthResolved {| cred_token := token; cred_user := user |}, ls2)
      end
  end.

(** [login(username, password)], given how the POST ends. *)
Definition login (o : post_outcome) (ls : localStorage)
  : auth_settled * localStorage :=
  match o with
  | PostRejected err => (AuthRejected (ThrownRejection err), ls)
  | PostResolved data =>
      let token := first_truthy (data_token data) (data_key data) in
      let user :=
        match data_user data with
        | Some u => Some u
        | None => data_profile data
        end in
      store_credentials token user ls
  end.

(** [register(username, password)] *)
Definition register (o : post_outcome) (ls : localStorage)
  : auth_settled * localStorage :=
  match o with
  | PostRejected err => (AuthRejected (ThrownRejection err), ls)
  | PostResolved data =>
      let token := first_truthy (data_token data) (data_key data) in
      let user := data_user data in
      store_credentials token user ls
  end.

End Stringify.

(** [logout()]: the outcome of the POST is ignored; the result is the
    error thrown by the storage, if any. *)
Definition logout (o : rest_outcome) (ls : localStorage)
  : option thrown * localStorage :=
  match removeItem "authToken" ls with
  | Throws message => (Some (ThrownError message), ls)
  | Done ls1 =>
      match removeItem "authUser" ls1 with
      | Throws message => (Some (ThrownError message), ls1)
      | Done ls2 => (None, ls2)
      end
  end.

End Auth.

Import Auth.

(** ** [App]: the signed-in user and the routes *)

Module Shell.

(** A parsed JSON document that is not an array: what the [user] state
    can hold. *)
Inductive anyjson :=
  | AScalar (s : scalar)
  | AObject (o : gmap string scalar).

Definition null : anyjson := AScalar SNull.

(** [Boolean(user)]: an object is truthy. *)
Definition signed_in (user : anyjson) : bool :=
  match user with
  | AScalar s => truthy (Some s)
  | AObject _ => true
  end.

(** The route that matches the current URL. *)
Inductive location :=
  | AtLogin                              (* /login *)
  | AtDashboard                          (* / *)
  | AtRoom (roomId : string)             (* /rooms/:roomId *)
  | AtDeviceSettings (deviceId : string) (* /devices/:deviceId/settings *)
  | AtUnknown.                           (* * *)

(** What a route renders. *)
Inductive element :=
  | LoginPage
  | DashboardPage
  | RoomPage (roomId : string)
  | DeviceSettingsPage (deviceId : string)
  | Navigate_to (to : location).

(** [ProtectedRoute] *)
Definition ProtectedRoute (user : anyjson) (children : element) : element :=
  if negb (signed_in user) then Navigate_to AtLogin else children.

(** The [Routes] of [App]. *)
Definition routes (user : anyjson) (at_ : location) : element :=
  match at_ with
  | AtLogin => if signed_in user then Navigate_to AtDashboard else LoginPage
  | AtDashboard => ProtectedRoute user DashboardPage
  | AtRoom roomId => ProtectedRoute user (RoomPage roomId)
  | AtDeviceSettings deviceId =>
      ProtectedRoute user (DeviceSettingsPage deviceId)
  | AtUnknown =>
      if signed_in user then Navigate_to AtDashboard else Navigate_to AtLogin
  end.

(** Rendering follows [Navigate] elements; [fuel] bounds the number of
    routes visited. *)
Fixpoint settle (fuel : nat) (user : anyjson) (at_ : location)
  : option (location * element) :=
  match fuel with
  | O => None
  | S k =>
      match routes user at_ with
      | Navigate_to to => settle k user to
      | el => Some (at_, el)
      end
  end.

Definition is_protected (el : element) : bool :=
  match el with
  | DashboardPage | RoomPage _ | DeviceSettingsPage _ => true
  | _ => false
  end.

(** The page a location is for. *)
Definition page_of (at_ : location) : element :=
  match at_ with
  | AtRoom roomId => RoomPage roomId
  | AtDeviceSettings deviceId => DeviceSettingsPage deviceId
  | _ => DashboardPage
  end.

(** The state of [App]: the user and where the router is. *)
Record app := {
  user : anyjson;
  at_route : location;
}.

Section Parse.

(** [JSON.parse] on the stored user; [None] when it throws. *)
Variable JSON_parse : string → option anyjson.

(** The initialiser of the [user] state. *)
Definition initialUser (ls : localStorage) : access (anyjson * localStorage) :=
  match getItem "authUser" ls with
  | Throws message => Throws message
  | Done raw =>
      if is_truthy raw then
        match raw ≫= JSON_parse with
        | Some v => Done (v, ls)
        | None =>
            match removeItem "authUser" ls with
            | Throws message => Throws message
            | Done ls1 =>
                match removeItem "authToken" ls1 with
                | Throws message => Throws message
                | Done ls2 => Done (null, ls2)
                end
            end
        end
      else Done (null, ls)
  end.

End Parse.

(** [handleAuthSuccess(data)] *)
Definition handleAuthSuccess (data : credentials) (a : app) : app :=
  {| user := match cred_user data with
             | Some u => AObject u
             | None => null
             end;
     at_route := AtDashboard |}.

(** [handleLogout()]: the state of [App], the storage, and whether
    [console.warn] was called. *)
Definition handleLogout (o : rest_outcome) (ls : localStorage) (a : app)
  : app * localStorage * bool :=
  let '(err, ls1) := logout o ls in
  ({| user := null; at_route := AtLogin |}, ls1,
   match err with Some _ => true | None => false end).

End Shell.

(** ** [LoginPage] *)

Module Login.

Record login_page := {
  mode : string;
  username : string;
  password : string;
  shown_error : string;
  busy : bool;
}.


(** [err.message] *)
Definition message_of (e : thrown) : option string :=
  match e with
  | ThrownRejection r => rej_message r
  | ThrownError message => Some message
  end.

(** The fallback chain of the [catch] block.  Neither a rejection of the
    interceptor nor a thrown error has a [response] property, so the
    first two operands are [undefined]. *)
Definition detail (e : thrown) : string :=
  str_or (first_truthy None (first_truthy None (message_of e)))
         "Something went wrong. Please check your input.".

Section Submit.

Variable JSON_stringify : gmap string scalar → string.

(** [handleSubmit(e)]: the page afterwards, the storage afterwards, and
    the argument of [onAuthSuccess] when it was called. *)
Definition handleSubmit (o : post_outcome) (ls : localStorage)
    (st : login_page) : login_page * localStorage * option credentials :=
  let '(result, ls1) :=
    if bool_decide (mode st = "login")
    then login JSON_stringify o ls
    else register JSON_stringify o ls in
  match result with
  | AuthResolved data =>
      ({| mode := mode st; username := username st; password := password st;
          shown_error := ""; busy := false |}, ls1, Some data)
  | AuthRejected e =>
      ({| mode := mode st; username := username st; password := password st;
          shown_error := detail e; busy := false |}, ls1, None)
  end.

End Submit.

(** [toggleMode()] *)
Definition toggleMode (st : login_page) : login_page :=
  {| mode := if bool_decide (mode st = "login") then "register" else "login";
     username := username st; password := password st;
     shown_error := ""; busy := busy st |}.

End Login.

(** ** [RoomPage], continued: loading, room settings, channel status *)

Module Settings.

(** [load(opts)] with nothing arriving in between. *)
Definition load (isRefresh : bool) (o : load_outcome) : M unit :=
  load_begin isRefresh ;; load_end o.

(** An entry of a [FormData]: text or a file. *)
Inductive form_value :=
  | FieldText (v : jsval)
  | FieldFile (file : string).

(** The body of the PATCH: a [FormData] (entries in the order they were
    appended) or a plain object (properties in the order written). *)
Inductive room_payload :=
  | FormData (entries : list (string * form_value))
  | JsonBody (fields : list (string * jsval)).

(** [updateRoom(room.id, payload)] *)
Record updateRoom_call := {
  call_id : jsval;
  call_payload : room_payload;
}.

(** How the PATCH ends: with the updated room object in [res.data], or
    with a rejection. *)
Inductive save_outcome :=
  | Saved (updatedRoom : gmap string scalar)
  | SaveFailed (err : rejection).

(** [handleSaveSettings(e)] up to [await updateRoom(...)]; the result is
    the call that was made, if any. *)
Definition handleSaveSettings_begin : M (option updateRoom_call) :=
  r ← read room ;
  match r with
  | None => mret None
  | Some r =>
      setError (of_string "") ;;
      name ← read roomName ;
      slug ← read roomSlug ;
      file ← read backgroundFile ;
      let payload :=
        match file with
        | Some f =>
            FormData [("name", FieldText name);
                      ("slug", FieldText slug);
                      ("background_image", FieldFile f)]
        | None => JsonBody [("name", name); ("slug", slug)]
        end in
      mret (Some {| call_id := r !! "id"; call_payload := payload |})
  end.

(** [handleSaveSettings(e)] from the point where the PATCH has settled. *)
Definition handleSaveSettings_end (o : save_outcome) : M unit :=
  match o with
  | Saved updatedRoom =>
      setRoom (Some updatedRoom) ;;
      syncRoomForm (Some updatedRoom)
  | SaveFailed err =>
      emit (ConsoleError "Update room error:") ;;
      setError (or_else (detail_of err)
                 (or_else undefined
                    (of_string "Could not save room settings.")))
  end.

(** [handleSaveSettings(e)] *)
Definition handleSaveSettings (o : save_outcome)
  : M (option updateRoom_call) :=
  c ← handleSaveSettings_begin ;
  match c with
  | Some call => handleSaveSettings_end o ;; mret (Some call)
  | None => mret None
  end.

(** [handleBackgroundFileChange(e)], with [e.target.files[0]] if there
    is one.  The preview of a chosen file arrives later, in
    [reader.onload]. *)
Definition handleBackgroundFileChange (file : option string) : M unit :=
  match file with
  | None =>
      modify (λ st,
        with_room_form (roomName st) (roomSlug st) (roomBackgroundUrl st)
          None (or_else (roomBackgroundUrl st) (of_string "")) st)
  | Some f =>
      modify (λ st,
        with_room_form (roomName st) (roomSlug st) (roomBackgroundUrl st)
          (Some f) (backgroundPreview st) st)
  end.

(** [reader.onload] *)
Definition reader_onload (result : string) : M unit :=
  modify (λ st,
    with_room_form (roomName st) (roomSlug st) (roomBackgroundUrl st)
      (backgroundFile st) (of_string result) st).

(** [onRoomNameChange] and [onRoomSlugChange] ([setRoomName],
    [setRoomSlug]) *)
Definition setRoomName (v : string) : M unit :=
  modify (λ st,
    with_room_form (of_string v) (roomSlug st) (roomBackgroundUrl st)
      (backgroundFile st) (backgroundPreview st) st).

Definition setRoomSlug (v : string) : M unit :=
  modify (λ st,
    with_room_form (roomName st) (of_string v) (roomBackgroundUrl st)
      (backgroundFile st) (backgroundPreview st) st).

(** The room settings form: name, slug, saved URL, pending file,
    preview. *)
Definition room_form (st : page)
  : jsval * jsval * jsval * option string * jsval :=
  (roomName st, roomSlug st, roomBackgroundUrl st, backgroundFile st,
   backgroundPreview st).

(** The form as [syncRoomForm] fills it from a room object. *)
Definition synced_form (r : gmap string scalar)
  : jsval * jsval * jsval * option string * jsval :=
  (or_else (r !! "name") (of_string ""),
   or_else (r !! "slug") (of_string ""),
   or_else (r !! "background_image_url") (of_string ""),
   None,
   or_else (r !! "background_image_url") (of_string "")).

(** The navigations in a trace. *)
Definition navigations (out : list effect) : list route :=
  omap (λ e, match e with Navigate to => Some to | _ => None end) out.

(** Serving the calls of the canvas one after the other. *)
Fixpoint serve_all (o : rest_outcome) (cbs : list callback) : M unit :=
  match cbs with
  | [] => skip
  | cb :: rest => serve o cb ;; serve_all o rest
  end.

(** The position patch of [handleDevicePositionPreview]. *)
Definition moved_to (deviceId : jsval) (x y : num) (l : list device)
  : list device :=
  map (λ d, if strict_eq (d !! "id") deviceId
            then <["position_y" := SNum y]> (<["position_x" := SNum x]> d)
            else d) l.

End Settings.

(** *** The status of the live channel *)

Module Channel.

(** The socket events [RoomPage] listens to. *)
Inductive socket_event :=
  | Opened
  | MessageArrived
  | Errored
  | Closed.

(** [wsStatus] and [socketRef.current] (sockets are told apart by a
    number). *)
Record channel := {
  wsStatus : string;
  socketRef : option nat;
}.

Definition unmounted : channel := {| wsStatus := "idle"; socketRef := None |}.

(** The body of the effect: [setWsStatus("connecting")] and
    [socketRef.current = socket]. *)
Definition connect (socket : nat) (c : channel) : channel :=
  {| wsStatus := "connecting"; socketRef := Some socket |}.

(** [socket.onopen], [socket.onmessage], [socket.onerror],
    [socket.onclose], as far as the status goes. *)
Definition on (ev : socket_event) (c : channel) : channel :=
  match ev with
  | Opened => {| wsStatus := "online"; socketRef := socketRef c |}
  | MessageArrived => c
  | Errored => {| wsStatus := "offline"; socketRef := socketRef c |}
  | Closed => {| wsStatus := "offline"; socketRef := None |}
  end.

(** The cleanup of the effect. *)
Definition cleanup (c : channel) : channel :=
  {| wsStatus := wsStatus c; socketRef := None |}.

(** [renderWsStatus()]: nothing, or the label and the colour of the
    badge. *)
Definition renderWsStatus (c : channel) : option (string * string) :=
  if bool_decide (wsStatus c = "idle") then None
  else
    let label :=
      if bool_decide (wsStatus c = "connecting") then "Connecting…"
      else if bool_decide (wsStatus c = "online") then "Live"
      else "Offline" in
    let color :=
      if bool_decide (wsStatus c = "online") then "#22c55e"
      else if bool_decide (wsStatus c = "connecting") then "#f97316"
      else "#ef4444" in
    Some (label, color).

(** The last event of a list that is not a message. *)
Fixpoint last_lifecycle (events : list socket_event) : option socket_event :=
  match events with
  | [] => None
  | ev :: rest =>
      match last_lifecycle rest with
      | Some later => Some later
      | None => match ev with MessageArrived => None | _ => Some ev end
      end
  end.

End Channel.

(** ** What a request will carry *)

(** The token the request interceptor finds: the stored [authToken] when
    the storage can be read and the token is not empty. *)
Definition stored_token (ls : localStorage) : option string :=
  match ls with
  | Items m =>
      match m !! "authToken" with
      | Some t => if bool_decide (t = "") then None else Some t
      | None => None
      end
  | Unavailable _ => None
  end.

(** The headers of a configuration, none when [config.headers] is
    missing. *)
Definition headers_of (c : request_config) : gmap string string :=
  default ∅ (headers c).

(** The user [login] takes from a response, and the one [register]
    takes. *)
Definition login_user (data : auth_data) : option (gmap string scalar) :=
  match data_user data with
  | Some u => Some u
  | None => data_profile data
  end.


(** Where the router ends up once redirects are followed. *)
Definition landing (user : Shell.anyjson) (at_ : Shell.location)
  : option (Shell.location * Shell.element) :=
  Shell.settle 2 user at_.


(** ** Outcomes of a load *)

(** A 401 or a 403. *)
Definition unauthorized (err : rejection) : bool :=
  bool_decide (rej_status err = Some 401%Z)
  || bool_decide (rej_status err = Some 403%Z).

(** The room [load] picks from the rooms it received. *)
Definition found_room (roomId : num)
    (rooms : option (list (gmap string scalar)))
  : option (gmap string scalar) :=
  find (λ r, strict_eq (r !! "id") (Some (SNum roomId))) (default [] rooms).

(** The message of a rejection, or the given text. *)
Definition detail_or (err : rejection) (fallback : string) : jsval :=
  if truthy (detail_of err) then detail_of err else of_string fallback.

(** ** The optimistic flip *)

(** The device list after the optimistic update of a toggle. *)
Definition flipped (dev : device) (l : list device) : list device :=
  map (λ d, if strict_eq (d !! "id") (dev !! "id")
            then <["is_on" := SBool (negb (truthy (dev !! "is_on")))]> d
            else d) l.

(** The command a toggle sends. *)
Definition toggle_command (dev : device) : request :=
  sendDeviceCommand (dev !! "id")
    {[ "state" := SStr (if truthy (dev !! "is_on") then "off" else "on") ]}.

(** ** Sequences of live messages *)

(** The device list after the messages, one after the other. *)
Definition received_all (JSON_parse : string → option json_doc)
    (messages : list string) (l : list device) : list device :=
  foldl (λ acc m, received (JSON_parse m) acc) l messages.

(** A trace entry that only writes to the console. *)
Definition is_console (e : effect) : bool :=
  match e with
  | ConsoleLog _ | ConsoleError _ => true
  | _ => false
  end.

(** The JSON body [handleSaveSettings] sends when no file is pending. *)
Definition json_patch (name slug : jsval) : Settings.room_payload :=
  Settings.JsonBody [("name", name); ("slug", slug)].

(** ** Serving a whole gesture *)

(** The device list after the previews among the calls. *)
Definition positions_after (cbs : list callback) (l : list device)
  : list device :=
  foldl (λ acc cb,
           match cb with
           | onPositionPreview deviceId x y => Settings.moved_to deviceId x y acc
           | _ => acc
           end) l cbs.

(** The PATCH requests of the commits among the calls. *)
Definition commits_of (cbs : list callback) : list request :=
  omap (λ cb,
          match cb with
          | onPositionCommit deviceId x y =>
              Some (updateDevice deviceId
                      {[ "position_x" := SNum x; "position_y" := SNum y ]})
          | _ => None
          end) cbs.

(** The navigations of the settings calls among the calls. *)
Definition settings_opened (cbs : list callback) : list route :=
  omap (λ cb,
          match cb with
          | onOpenDeviceSettings deviceId => Some (RDeviceSettings deviceId)
          | _ => None
          end) cbs.

(** ** The channel after a run of socket events *)

Definition after_events (events : list Channel.socket_event)
    (c : Channel.channel) : Channel.channel :=
  foldl (λ acc ev, Channel.on ev acc) c events.

Definition is_closed (ev : Channel.socket_event) : bool :=
  match ev with Channel.Closed => true | _ => false end.

(** The badge for the last event that was not a message. *)
Definition badge_for (ev : option Channel.socket_event) : string * string :=
  match ev with
  | None => ("Connecting…", "#f97316")
  | Some Channel.Opened => ("Live", "#22c55e")
  | Some _ => ("Offline", "#ef4444")
  end.

(** * Theorems *)

(** ** Strict equality *)

Section StrictEq.

Lemma num_eqb_true a b : num_eqb a b = true → a = b.
Proof.
  destruct a, b; simpl; try discriminate; try reflexivity.
  intros H. apply bool_decide_eq_true in H. by subst.
Qed.

Lemma scalar_eqb_true a b : scalar_eqb a b = true → a = b.
Proof.
  destruct a as [|x|x|x], b as [|y|y|y]; simpl; try discriminate; try reflexivity.
  - intros H. apply eqb_prop in H. by subst.
  - intros H. apply num_eqb_true in H. by subst.
  - intros H. apply bool_decide_eq_true in H. by subst.
Qed.

Lemma strict_eq_true a b : strict_eq a b = true → a = b.
Proof.
  destruct a, b; simpl; try discriminate; try reflexivity.
  intros H. apply scalar_eqb_true in H. by subst.
Qed.

Lemma strict_eq_sym a b : strict_eq a b = strict_eq b a.
Proof.
  destruct a as [[|x|[x| | |]|x]|], b as [[|y|[y| | |]|y]|]; simpl; try reflexivity.
  - by destruct x, y.
  - apply bool_decide_ext. naive_solver.
  - apply bool_decide_ext. naive_solver.
Qed.

(** A value that is [===] to something is [===] to itself (it is not NaN). *)
Lemma strict_eq_self a b : strict_eq a b = true → strict_eq b b = true.
Proof. intros H. by rewrite <- (strict_eq_true _ _ H) at 1. Qed.

End StrictEq.

(** ** Elements of the device list *)

Section Elements.

Implicit Types (d : device) (k : string) (v : scalar).

(** Reading a property is a lookup among the own properties. *)
Lemma lookup_own d k : d !! k = own d !! k.
Proof. reflexivity. Qed.

Lemma device_insert_unfold k v d : <[k := v]> d = Obj (<[k := v]> (own d)).
Proof. reflexivity. Qed.

Lemma own_insert k v d : own (<[k := v]> d) = <[k := v]> (own d).
Proof. reflexivity. Qed.

Lemma device_lookup_insert k v d : <[k := v]> d !! k = Some v.
Proof. rewrite lookup_own, own_insert. apply lookup_insert_eq. Qed.

Lemma device_lookup_insert_ne k k' v d :
  k ≠ k' → <[k := v]> d !! k' = d !! k'.
Proof.
  intros H. rewrite !lookup_own, own_insert. by apply lookup_insert_ne.
Qed.

Lemma device_insert_insert k v v' d :
  <[k := v]> (<[k := v']> d) = <[k := v]> d.
Proof.
  unfold insert at 1 3, device_insert. by rewrite own_insert, insert_insert_eq.
Qed.

(** Writing a property back with the value it has changes nothing in an
    object; anything else becomes an object. *)
Lemma device_insert_id k v (o : gmap string scalar) :
  o !! k = Some v → <[k := v]> (Obj o) = Obj o.
Proof.
  intros H. unfold insert, device_insert. simpl. by rewrite insert_id.
Qed.

Lemma spread_unfold (d u : device) : spread d u = Obj (own u ∪ own d).
Proof. reflexivity. Qed.

(** Indices are written with digits. *)
Lemma pretty_N_go_digit (x : N) (s : string) :
  (0 < x)%N → starts_with_digit (pretty_N_go x s) = true.
Proof.
  revert s. induction (N.lt_wf_0 x) as [x _ IH]; intros s Hx.
  rewrite pretty_N_go_step by done.
  destruct (decide (0 < x `div` 10)%N) as [Hq|Hq].
  - apply IH; [by apply N.div_lt | done].
  - apply N.nlt_ge, N.le_0_r in Hq. rewrite Hq, pretty_N_go_0. unfold pretty_N_char.
    by repeat case_match.
Qed.

Lemma pretty_nat_digit (i : nat) : starts_with_digit (pretty i) = true.
Proof.
  unfold pretty, pretty_nat, pretty, pretty_N.
  case_decide; [done|]. apply pretty_N_go_digit. lia.
Qed.

Lemma indexed_keys (l : list scalar) k v :
  indexed l !! k = Some v → starts_with_digit k = true.
Proof.
  unfold indexed. intros H. apply elem_of_list_to_map_2 in H.
  apply elem_of_lookup_imap in H as (i & x & [= -> _] & _).
  apply pretty_nat_digit.
Qed.

(** Only an object has a property whose name is not an index. *)
Lemma named_field_object d k v :
  starts_with_digit k = false → d !! k = Some v → ∃ o, d = Obj o.
Proof.
  intros Hk H. destruct d as [o|s|n|b|l]; [by exists o|..];
    rewrite lookup_own in H; simpl in H.
  - apply indexed_keys in H. congruence.
  - by rewrite lookup_empty in H.
  - by rewrite lookup_empty in H.
  - apply indexed_keys in H. congruence.
Qed.

End Elements.

(** From here on a spread and a field update are only taken apart
    through the lemmas above. *)
Local Opaque spread device_insert.

(** ** Upserts *)

Section Upsert.

Implicit Types (d p : device) (l : list device) (i : jsval).

Lemma lookup_spread d p (k : string) :
  spread d p !! k = match p !! k with Some v => Some v | None => d !! k end.
Proof.
  rewrite spread_unfold, !lookup_own. simpl.
  destruct (own p !! k) as [v|] eqn:Hp.
  - by apply lookup_union_Some_l.
  - by rewrite lookup_union_r.
Qed.

(** The merged record keeps the id it was found by. *)
Lemma spread_keeps_id d p i :
  strict_eq (p !! "id") i = true →
  strict_eq (d !! "id") i = true →
  strict_eq (spread d p !! "id") i = true.
Proof.
  intros Hp Hd. rewrite lookup_spread.
  destruct (p !! "id") eqn:E; [exact Hp | exact Hd].
Qed.

(** One upsert, seen from the id the payload carries. *)
Lemma applyDeviceUpdate_at l p i :
  strict_eq (p !! "id") i = true →
  applyDeviceUpdate l p =
    if existsb (λ d, strict_eq (d !! "id") i) l
    then map (λ d, if strict_eq (d !! "id") i then spread d p else d) l
    else l ++ [p].
Proof.
  intros Hp. apply strict_eq_true in Hp. unfold applyDeviceUpdate.
  rewrite Hp. by destruct (existsb _ l).
Qed.

Lemma existsb_after_merge l p i :
  strict_eq (p !! "id") i = true →
  existsb (λ d, strict_eq (d !! "id") i) l = true →
  existsb (λ d, strict_eq (d !! "id") i)
    (map (λ d, if strict_eq (d !! "id") i then spread d p else d) l) = true.
Proof.
  intros Hp. induction l as [|d l IH]; simpl; [done|].
  destruct (strict_eq (d !! "id") i) eqn:Hd; simpl.
  - intros _. by rewrite spread_keeps_id.
  - rewrite Hd. simpl. exact IH.
Qed.

Lemma map_absent_id l i (f : device → device) :
  existsb (λ d, strict_eq (d !! "id") i) l = false →
  map (λ d, if strict_eq (d !! "id") i then f d else d) l = l.
Proof.
  induction l as [|d l IH]; simpl; [done|].
  intros H. apply orb_false_iff in H as [Hd Hl].
  rewrite Hd. f_equal. by apply IH.
Qed.

Lemma upsert_all_present l i (ps : list device) :
  Forall (λ p, strict_eq (p !! "id") i = true) ps →
  existsb (λ d, strict_eq (d !! "id") i) l = true →
  upsert_all l ps =
    map (λ d, if strict_eq (d !! "id") i then merge_all d ps else d) l.
Proof.
  intros Hps. revert l.
  induction Hps as [|p ps Hp Hps IH]; intros l Hl; simpl.
  - rewrite <- (map_id l) at 1. apply map_ext. intros d.
    by destruct (strict_eq _ _).
  - rewrite (applyDeviceUpdate_at l p i Hp), Hl.
    rewrite IH by (by apply existsb_after_merge).
    rewrite map_map. apply map_ext. intros d.
    destruct (strict_eq (d !! "id") i) eqn:Hd.
    + by rewrite spread_keeps_id.
    + by rewrite Hd.
Qed.

End Upsert.

(** C2.  Upserts that all carry the same id leave, for that id, the
    left-to-right shallow merge of the payloads over the record that was
    there (over the first payload, appended at the end, when the id was
    absent), and leave every record with another id as it was; a shallow
    merge takes each field from the payload when the payload has it and
    from the record otherwise. *)
Theorem upsert_sequence_is_shallow_merge
    (store : list device) (i : jsval) (payloads : list device) :
  Forall (λ p, strict_eq (p !! "id") i = true) payloads →
  upsert_all store payloads =
    (if existsb (λ d, strict_eq (d !! "id") i) store
     then map (λ d, if strict_eq (d !! "id") i
                    then merge_all d payloads else d) store
     else match payloads with
          | [] => store
          | p :: rest => store ++ [merge_all p rest]
          end)
  ∧ ∀ (d p : device) (k : string),
      spread d p !! k = match p !! k with Some v => Some v | None => d !! k end.
Proof.
  intros Hps. split; [|apply lookup_spread].
  destruct (existsb _ store) eqn:Hl.
  - by apply upsert_all_present.
  - destruct Hps as [|p ps Hp Hps]; [done|]. simpl.
    rewrite (applyDeviceUpdate_at store p i Hp), Hl.
    rewrite (upsert_all_present _ i ps Hps).
    + rewrite map_app. simpl. rewrite (map_absent_id _ _ _ Hl).
      by rewrite Hp.
    + rewrite existsb_app. simpl. rewrite Hp. by rewrite orb_true_r.
Qed.

Lemma upsert_sequence_witness :
  let store := [Scenario.thermometer; Scenario.lamp] in
  let i := Some (Scenario.number 7) in
  let payloads : list device :=
    [ Obj {[ "id" := Scenario.number 7; "is_on" := SBool true ]};
      Obj {[ "id" := Scenario.number 7; "name" := SStr "Desk lamp" ]} ] in
  Forall (λ p : device, strict_eq (p !! "id") i = true) payloads
  ∧ upsert_all store payloads =
      (if existsb (λ d : device, strict_eq (d !! "id") i) store
       then map (λ d : device, if strict_eq (d !! "id") i
                      then merge_all d payloads else d) store
       else match payloads with
            | [] => store
            | p :: rest => store ++ [merge_all p rest]
            end).
Proof.
  intros store i payloads.
  assert (Forall (λ p : device, strict_eq (p !! "id") i = true) payloads) as H
    by (repeat constructor; vm_compute; reflexivity).
  split; [exact H|].
  exact (proj1 (upsert_sequence_is_shallow_merge store i payloads H)).
Defined.

(** ** Running handlers *)

Section Running.

Context {A B : Type}.
Implicit Types (m : M A) (k : A → M B) (st : page).

Lemma state_after_bind m k st :
  state_after (m ≫= k) st = state_after (k (result_of m st)) (state_after m st).
Proof.
  unfold state_after, result_of, mbind, M_bind.
  destruct (m st) as [[a st1] out1]. simpl.
  by destruct (k a st1) as [[b st2] out2].
Qed.

Lemma trace_of_bind m k st :
  trace_of (m ≫= k) st =
    trace_of m st ++ trace_of (k (result_of m st)) (state_after m st).
Proof.
  unfold trace_of, state_after, result_of, mbind, M_bind.
  destruct (m st) as [[a st1] out1]. simpl.
  by destruct (k a st1) as [[b st2] out2].
Qed.

Lemma result_of_bind m k st :
  result_of (m ≫= k) st = result_of (k (result_of m st)) (state_after m st).
Proof.
  unfold state_after, result_of, mbind, M_bind.
  destruct (m st) as [[a st1] out1]. simpl.
  by destruct (k a st1) as [[b st2] out2].
Qed.

End Running.

Lemma with_devices_id st : with_devices (λ _, devices st) st = st.
Proof. by destruct st. Qed.

Lemma calls_app out1 out2 : calls (out1 ++ out2) = calls out1 ++ calls out2.
Proof. unfold calls. apply omap_app. Qed.

(** ** The live channel *)

Section Channel.

Variable JSON_parse : string → option json_doc.

(** The two message types exclude each other. *)
Lemma update_is_not_snapshot (t : jsval) :
  strict_eq t (of_string "device_update") = true →
  strict_eq t (of_string "devices_snapshot") = false.
Proof. intros H. apply strict_eq_true in H. by subst. Qed.

Lemma onmessage_state (s : string) st :
  state_after (onmessage JSON_parse s) st =
    with_devices (received (JSON_parse s)) st.
Proof.
  unfold onmessage, onmessage_try, received, state_after.
  destruct (JSON_parse s) as [[|[t dev snap]]|]; simpl;
    try (by destruct st).
  destruct (strict_eq t (of_string "device_update")) eqn:Hu.
  - rewrite (update_is_not_snapshot _ Hu).
    destruct dev as [dev|], snap; simpl;
      try destruct (device_truthy dev); simpl; by destruct st.
  - destruct (strict_eq t (of_string "devices_snapshot"));
      destruct dev, snap; simpl; by destruct st.
Qed.

Lemma onmessage_trace (s : string) st :
  trace_of (onmessage JSON_parse s) st =
    ConsoleLog "[ws] message" ::
    match JSON_parse s with
    | Some (JData _) => []
    | _ => [ConsoleError "[ws] failed to parse message"]
    end.
Proof.
  unfold onmessage, onmessage_try, trace_of.
  destruct (JSON_parse s) as [[|[t dev snap]]|]; simpl; try done.
  destruct (strict_eq t (of_string "device_update"));
    destruct (strict_eq t (of_string "devices_snapshot"));
    destruct dev as [dev|], snap; simpl;
    try destruct (device_truthy dev); simpl; done.
Qed.

Lemma onmessage_result (s : string) st :
  result_of (onmessage JSON_parse s) st = Normal.
Proof.
  unfold onmessage, onmessage_try, result_of.
  destruct (JSON_parse s) as [[|[t dev snap]]|]; simpl; try done.
  destruct (strict_eq t (of_string "device_update"));
    destruct (strict_eq t (of_string "devices_snapshot"));
    destruct dev as [dev|], snap; simpl;
    try destruct (device_truthy dev); simpl; done.
Qed.

End Channel.

(** One upsert, record by record: when no record has the id of the
    payload, the payload is appended as it is; otherwise the list keeps
    its length, every record with that id becomes the merged object and
    every other record stays. *)
Lemma applyDeviceUpdate_records (l : list device) (u : device) :
  if existsb (λ d, strict_eq (d !! "id") (u !! "id")) l
  then length (applyDeviceUpdate l u) = length l
       ∧ ∀ (i : nat) (d : device),
           l !! i = Some d →
           applyDeviceUpdate l u !! i =
             Some (if strict_eq (d !! "id") (u !! "id")
                   then spread d u else d)
  else applyDeviceUpdate l u = l ++ [u].
Proof.
  unfold applyDeviceUpdate. destruct (existsb _ l); simpl; [|done].
  split; [apply length_map|].
  intros i d Hi. change (map ?f l) with (f <$> l).
  by rewrite list_lookup_fmap, Hi.
Qed.

(** C3.  The message handler always completes normally.  A payload that
    does not parse (or parses to [null]) is logged with [console.error]
    and leaves the whole component state as it was.  Any other message
    is only logged with [console.log].  A [device_update] with a device
    (an object, or any other truthy value) is upserted: when no record
    has its id it is appended at the end; otherwise the list keeps its
    length, every record with that id is replaced by an object that has
    each field of the device and, for the fields the device lacks, those
    of the record, and every other record stays as it is.  A
    [devices_snapshot] with an array makes the array the device list,
    whatever was there.  Any other message leaves the device list as it
    was. *)
Theorem onmessage_dispatch
    (JSON_parse : string → option json_doc) (s : string) (st : page) :
  let after := state_after (onmessage JSON_parse s) st in
  result_of (onmessage JSON_parse s) st = Normal
  ∧ match JSON_parse s with
    | None | Some JNull =>
        after = st
        ∧ trace_of (onmessage JSON_parse s) st =
            [ConsoleLog "[ws] message";
             ConsoleError "[ws] failed to parse message"]
    | Some (JData data) =>
        trace_of (onmessage JSON_parse s) st = [ConsoleLog "[ws] message"]
        ∧ if strict_eq (data_type data) (of_string "device_update") then
            match data_device data with
            | Some dev =>
                if device_truthy dev then
                  if existsb (λ d, strict_eq (d !! "id") (dev !! "id"))
                       (devices st)
                  then
                    length (devices after) = length (devices st)
                    ∧ ∀ (i : nat) (d : device),
                        devices st !! i = Some d →
                        if strict_eq (d !! "id") (dev !! "id") then
                          ∃ merged : gmap string scalar,
                            devices after !! i = Some (Obj merged)
                            ∧ ∀ k : string,
                                merged !! k =
                                  match dev !! k with
                                  | Some v => Some v
                                  | None => d !! k
                                  end
                        else devices after !! i = Some d
                  else devices after = devices st ++ [dev]
                else devices after = devices st
            | None => devices after = devices st
            end
          else if strict_eq (data_type data) (of_string "devices_snapshot")
          then
            match data_devices data with
            | Some snapshot => devices after = snapshot
            | None => devices after = devices st
            end
          else devices after = devices st
    end.
Proof.
  intros after. subst after.
  split; [apply onmessage_result|].
  rewrite onmessage_state, onmessage_trace.
  destruct (JSON_parse s) as [[|data]|]; unfold received.
  - split; [by destruct st | done].
  - split; [done|]. cbn [devices with_devices].
    destruct (strict_eq (data_type data) (of_string "device_update")).
    + destruct (data_device data) as [dev|]; [|done].
      destruct (device_truthy dev); [|done].
      pose proof (applyDeviceUpdate_records (devices st) dev) as H.
      destruct (existsb _ (devices st)); [|done].
      destruct H as [Hlen Hrec]. split; [done|].
      intros i d Hi. rewrite (Hrec i d Hi).
      destruct (strict_eq (d !! "id") (dev !! "id")); [|done].
      exists (own dev ∪ own d). split; [by rewrite spread_unfold|].
      intros k. rewrite <- (lookup_spread d dev k).
      by rewrite spread_unfold.
    + destruct (strict_eq (data_type data) (of_string "devices_snapshot"));
        [|done].
      by destruct (data_devices data).
  - split; [by destruct st | done].
Qed.

(** The device of a message need not be a device record.  The string
    of [{"type":"device_update","device":"abc"}] is appended as it is; a
    second such message finds it by its missing id and replaces it by
    the object that spreading a string gives. *)
Example string_payload_is_appended :
  let parse := Scenario.always (Scenario.device_update (Str "abc")) in
  let st := Scenario.mounted 1 [Scenario.lamp] in
  let once := state_after (onmessage parse "message") st in
  let twice := state_after (onmessage parse "message") once in
  devices once = [Scenario.lamp; Str "abc"]
  ∧ devices twice =
      [Scenario.lamp;
       Obj {[ "0" := SStr "a"; "1" := SStr "b"; "2" := SStr "c" ]}].
Proof. by vm_compute. Qed.

(** ** The response interceptor *)

(** C9.  A failed request settles as a rejection of one of the two
    normalised shapes, never with the raw axios error: [network_error]
    exactly when the error has no response, [api_error] with the
    response's status and body when it has one. *)
Theorem failed_request_is_normalized
    (API_BASE_URL : string) (error : axios_error) :
  ∃ r : rejection,
    responseInterceptor API_BASE_URL (TError error) = Rejected r
    ∧ rej_originalError r = error
    ∧ match ax_response error with
      | None =>
          rej_type r = "network_error"
          ∧ rej_status r = None ∧ rej_data r = None
      | Some response =>
          rej_type r = "api_error"
          ∧ rej_status r = Some (resp_status response)
          ∧ rej_data r = Some (resp_data response)
      end.
Proof.
  unfold responseInterceptor, onResponseError.
  destruct (ax_response error) as [response|] eqn:E;
    eexists; (split; [reflexivity|]); simpl; by rewrite ?E.
Qed.

(** ** Toggling *)

Section Toggle.

Variable JSON_parse : string → option json_doc.

Lemma handleToggleDevice_not_digital (dev : device) (s : schedule) st :
  isDigital dev = false →
  state_after (handleToggleDevice JSON_parse dev s) st
    = with_error (of_string "") st
  ∧ trace_of (handleToggleDevice JSON_parse dev s) st = [].
Proof.
  intros H.
  unfold handleToggleDevice, handleToggleDevice_begin, state_after, trace_of.
  simpl. by rewrite H.
Qed.

End Toggle.

(** C10, as stated: toggling a device that is not digital-like changes
    nothing.  It does change something: an error that is being shown is
    cleared, because [setError("")] runs before the guard. *)
Lemma toggle_sensor_clears_shown_error :
  let st := Scenario.showing "Could not toggle device."
              (Scenario.mounted 1 [Scenario.thermometer]) in
  let s := Scenario.quiet Resolved [] in
  isDigital Scenario.thermometer = false
  ∧ state_after
      (handleToggleDevice (Scenario.always JNull) Scenario.thermometer s) st
    ≠ st.
Proof.
  split; [by vm_compute|].
  intros H. apply (f_equal error) in H. vm_compute in H. discriminate H.
Qed.

(** C10, amended.  Toggling a device that is not digital-like leaves the
    device list as it was, issues no REST command (the handler has no
    effect outside the component state at all) and leaves no error
    showing; the only change to the state is that the error message is
    reset to the empty string. *)
Theorem toggle_not_digital_only_clears_error
    (JSON_parse : string → option json_doc)
    (dev : device) (s : schedule) (st : page) :
  isDigital dev = false →
  let after := state_after (handleToggleDevice JSON_parse dev s) st in
  devices after = devices st
  ∧ trace_of (handleToggleDevice JSON_parse dev s) st = []
  ∧ error after = of_string ""
  ∧ after = with_error (of_string "") st.
Proof.
  intros H after.
  destruct (handleToggleDevice_not_digital JSON_parse dev s st H) as [Hs Ht].
  subst after. rewrite Hs, Ht. done.
Qed.

Lemma toggle_not_digital_witness :
  let dev := Scenario.thermometer in
  let s := Scenario.quiet Resolved [] in
  let st := Scenario.showing "Could not toggle device."
              (Scenario.mounted 1 [Scenario.thermometer]) in
  let after :=
    state_after (handleToggleDevice (Scenario.always JNull) dev s) st in
  isDigital dev = false
  ∧ devices after = devices st
  ∧ trace_of (handleToggleDevice (Scenario.always JNull) dev s) st = []
  ∧ error after = of_string ""
  ∧ after = with_error (of_string "") st.
Proof.
  intros dev s st after.
  assert (isDigital dev = false) as H by (vm_compute; reflexivity).
  split; [exact H|].
  exact (toggle_not_digital_only_clears_error
           (Scenario.always JNull) dev s st H).
Defined.

Section ToggleFailure.

Variable JSON_parse : string → option json_doc.

Lemma or_else_undefined (v : jsval) : or_else undefined v = v.
Proof. done. Qed.

(** The error the [catch] block shows: the server's [detail] when it is
    truthy, the fixed text otherwise. *)
Lemma handleToggleDevice_catch_error (dev : device) (err : rejection) st :
  error (state_after (handleToggleDevice_catch dev err) st) =
    if truthy (detail_of err) then detail_of err
    else of_string "Could not toggle device.".
Proof. done. Qed.

(** With nothing arriving while the command is in flight, a failed
    toggle leaves every record with the device's id with the [is_on]
    that the handler captured from its argument. *)
Lemma toggle_failure_restores_when_quiet
    (dev : device) (err : rejection) (s : schedule) st :
  isDigital dev = true →
  during_command s = [] →
  command_outcome s = Failed err →
  devices (state_after (handleToggleDevice JSON_parse dev s) st) =
    map (λ d, if strict_eq (d !! "id") (dev !! "id")
              then <["is_on" := SBool (truthy (dev !! "is_on"))]> d else d)
        (devices st).
Proof.
  intros Hd Hq Hf.
  unfold handleToggleDevice, handleToggleDevice_begin, state_after.
  simpl. rewrite Hd, Hq, Hf. simpl.
  rewrite map_map. apply map_ext. intros d.
  destruct (strict_eq (d !! "id") (dev !! "id")) eqn:E.
  - rewrite device_lookup_insert_ne by done. rewrite E.
    rewrite device_insert_insert, device_lookup_insert.
    unfold negate. simpl. by rewrite negb_involutive.
  - by rewrite E.
Qed.

End ToggleFailure.

(** A toggle that the server refuses with a [detail] shows that detail,
    and with nothing else going on the lamp is back to off. *)
Example toggle_refused_shows_detail :
  let st := Scenario.mounted 1 [Scenario.lamp] in
  let after :=
    state_after
      (handleToggleDevice (Scenario.always JNull) Scenario.lamp
         (Scenario.quiet (Failed (Scenario.refused 400 "Device offline")) []))
      st in
  devices after = [Scenario.lamp]
  ∧ error after = of_string "Device offline".
Proof. by vm_compute. Qed.

(** C1, at the failing input.  The lamp is off.  It is toggled; while the
    command is in flight the channel delivers a [device_update] for the
    lamp with [is_on: false]; the command is rejected.  The [catch] block
    negates the [is_on] it finds in the list instead of writing back the
    value captured before the flip, so the lamp ends up on.  The error
    shown is the fallback text. *)
Theorem toggle_rollback_lost_after_live_update :
  let st := Scenario.mounted 1 [Scenario.lamp] in
  let update : device :=
    Obj {[ "id" := Scenario.number 7; "is_on" := SBool false ]} in
  let after :=
    state_after
      (handleToggleDevice (Scenario.always (Scenario.device_update update))
         Scenario.lamp (Scenario.racing (Failed Scenario.server_down)))
      st in
  isDigital Scenario.lamp = true
  ∧ is_on_of (Some (Scenario.number 7)) (devices st) = [false]
  ∧ is_on_of (Some (Scenario.number 7)) (devices after) = [true]
  ∧ error after = of_string "Could not toggle device.".
Proof. by vm_compute. Qed.

(** ** Ids *)

Section Ids.

Implicit Types (d u : device) (l : list device).

Lemma existsb_same_id_ext d1 d2 l1 l2 :
  id_of d1 = id_of d2 → map id_of l1 = map id_of l2 →
  existsb (same_id d1) l1 = existsb (same_id d2) l2.
Proof.
  intros Hd. revert l2.
  induction l1 as [|a l1 IH]; intros [|b l2] Hl; simplify_eq/=; [done|].
  unfold same_id at 1 3. unfold id_of in *.
  rewrite Hd, H. f_equal. by apply IH.
Qed.

(** Whether ids are unique depends on the ids only. *)
Lemma ids_unique_ext l1 l2 :
  map id_of l1 = map id_of l2 → ids_unique l1 = ids_unique l2.
Proof.
  revert l2. induction l1 as [|a l1 IH]; intros [|b l2] Hl; simplify_eq/=; [done|].
  rewrite (existsb_same_id_ext a b l1 l2) by done.
  f_equal. by apply IH.
Qed.

(** A patch of the records selected by [c] that keeps their ids. *)
Lemma ids_unique_patch (c : device → bool) (f : device → device) l :
  (∀ d, c d = true → id_of (f d) = id_of d) →
  ids_unique (map (λ d, if c d then f d else d) l) = ids_unique l.
Proof.
  intros Hf. apply ids_unique_ext. rewrite map_map. apply map_ext.
  intros d. destruct (c d) eqn:E; [by apply Hf | done].
Qed.

Lemma ids_unique_snoc l u :
  ids_unique (l ++ [u]) =
    ids_unique l && negb (existsb (λ d, same_id d u) l).
Proof.
  induction l as [|d l IH]; simpl; [done|].
  rewrite IH, existsb_app. simpl. rewrite orb_false_r.
  destruct (existsb (same_id d) l), (same_id d u), (ids_unique l),
    (existsb (λ d0, same_id d0 u) l); done.
Qed.

Lemma spread_id_of d u :
  strict_eq (d !! "id") (u !! "id") = true → id_of (spread d u) = id_of d.
Proof.
  intros H. unfold id_of. rewrite lookup_spread.
  destruct (u !! "id") eqn:E; [|done]. by apply strict_eq_true in H.
Qed.

(** An upsert keeps ids unique. *)
Lemma applyDeviceUpdate_ids_unique l u :
  ids_unique l = true → ids_unique (applyDeviceUpdate l u) = true.
Proof.
  intros Hl. unfold applyDeviceUpdate.
  destruct (existsb _ l) eqn:E; simpl.
  - rewrite ids_unique_patch; [done|]. intros d. apply spread_id_of.
  - rewrite ids_unique_snoc. unfold same_id. by rewrite Hl, E.
Qed.

Lemma insert_id_of (k : string) (v : scalar) d :
  k ≠ "id" → id_of (<[k := v]> d) = id_of d.
Proof. intros H. unfold id_of. by rewrite device_lookup_insert_ne. Qed.

(** For ids that are not NaN, [===] is equality, and the boolean check
    is the usual absence of duplicates among the ids. *)
Lemma strict_eq_refl a : a ≠ Some (SNum NaN) → strict_eq a a = true.
Proof.
  destruct a as [[|b|[q| | |]|s]|]; simpl; try done.
  - intros _. by destruct b.
  - intros _. by apply bool_decide_eq_true.
  - intros _. by apply bool_decide_eq_true.
Qed.

Lemma existsb_same_id d l :
  id_of d ≠ Some (SNum NaN) →
  existsb (same_id d) l = true ↔ id_of d ∈ map id_of l.
Proof.
  intros Hd. induction l as [|a l IH]; simpl.
  - split; [done|]. intros H. by apply not_elem_of_nil in H.
  - rewrite orb_true_iff, IH, elem_of_cons. unfold same_id, id_of in *.
    split; intros [H|H]; auto.
    + left. by apply strict_eq_true.
    + left. rewrite <- H. by apply strict_eq_refl.
Qed.

Lemma ids_unique_NoDup l :
  Forall (λ d, id_of d ≠ Some (SNum NaN)) l →
  ids_unique l = true ↔ NoDup (map id_of l).
Proof.
  induction 1 as [|d l Hd Hl IH]; simpl.
  - split; [constructor | done].
  - rewrite andb_true_iff, negb_true_iff, IH, NoDup_cons.
    rewrite <- (existsb_same_id d l Hd).
    by destruct (existsb (same_id d) l); intuition.
Qed.

End Ids.

(** What a successful load leaves in the device list. *)
Lemma load_end_devices (rooms : option (list (gmap string scalar)))
    (fetched : option (list device)) st :
  devices (state_after (load_end (Loaded rooms fetched)) st)
    = default [] fetched.
Proof.
  unfold load_end, state_after, mbind, M_bind, read. simpl.
  match goal with |- context [find ?f ?l] => destruct (find f l) end; done.
Qed.

(** C4, as stated: after a [devices_snapshot] no two records share an
    id.  A snapshot that lists an id twice is stored as it is. *)
Lemma snapshot_with_duplicate_ids_is_kept :
  let twice := [Scenario.lamp; Scenario.lamp] in
  let st := Scenario.mounted 1 [] in
  let after :=
    state_after
      (onmessage (Scenario.always (Scenario.devices_snapshot twice)) "message")
      st in
  ids_unique (devices st) = true
  ∧ devices after = twice
  ∧ ids_unique (devices after) = false.
Proof. by vm_compute. Qed.

(** C4, amended.  When no two records of the device list share an id,
    none do after an upsert, after the optimistic flip of a toggle or its
    revert, or after a position preview.  A snapshot and a REST load put
    the list they received in place of the device list without looking at
    its ids, so afterwards ids are unique exactly when they are unique in
    that list. *)
Theorem ids_stay_unique_except_on_replace
    (JSON_parse : string → option json_doc) (st : page) :
  ids_unique (devices st) = true →
  (∀ u : device, ids_unique (applyDeviceUpdate (devices st) u) = true)
  ∧ (∀ dev : device,
       ids_unique (devices (state_after (handleToggleDevice_begin dev) st))
         = true)
  ∧ (∀ (dev : device) (err : rejection),
       ids_unique
         (devices (state_after (handleToggleDevice_catch dev err) st))
         = true)
  ∧ (∀ (deviceId : jsval) (x y : num),
       ids_unique
         (devices (state_after (handleDevicePositionPreview deviceId x y) st))
         = true)
  ∧ (∀ s : string,
       ids_unique (devices (state_after (onmessage JSON_parse s) st)) =
         match JSON_parse s with
         | Some (JData {| data_type := t; data_devices := Some snapshot |}) =>
             if strict_eq t (of_string "devices_snapshot")
             then ids_unique snapshot else true
         | _ => true
         end)
  ∧ (∀ (rooms : option (list (gmap string scalar))) (fetched : list device),
       devices (state_after (load_end (Loaded rooms (Some fetched))) st)
         = fetched).
Proof.
  intros Hst. repeat split.
  - intros u. by apply applyDeviceUpdate_ids_unique.
  - intros dev. unfold handleToggleDevice_begin, state_after. simpl.
    destruct (isDigital dev); simpl; [|done].
    rewrite ids_unique_patch; [done|]. intros d _. by apply insert_id_of.
  - intros dev err. unfold handleToggleDevice_catch, state_after. simpl.
    rewrite ids_unique_patch; [done|]. intros d _. by apply insert_id_of.
  - intros deviceId x y.
    unfold handleDevicePositionPreview, state_after. simpl.
    rewrite ids_unique_patch; [done|]. intros d _.
    by rewrite !insert_id_of.
  - intros s. rewrite onmessage_state. simpl. unfold received.
    destruct (JSON_parse s) as [[|[t dev snap]]|]; simpl; try done.
    destruct (strict_eq t (of_string "device_update")) eqn:Hu.
    + rewrite (update_is_not_snapshot _ Hu).
      destruct dev as [dev|], snap; try done;
        (destruct (device_truthy dev); [|done]);
        by apply applyDeviceUpdate_ids_unique.
    + destruct (strict_eq t (of_string "devices_snapshot")), snap; done.
  - intros rooms fetched.
    apply load_end_devices.
Qed.

Lemma ids_stay_unique_witness :
  let st := Scenario.mounted 1 [Scenario.thermometer; Scenario.lamp] in
  ids_unique (devices st) = true
  ∧ ∀ u : device, ids_unique (applyDeviceUpdate (devices st) u) = true.
Proof.
  intros st.
  assert (ids_unique (devices st) = true) as H by (vm_compute; reflexivity).
  split; [exact H|].
  exact (proj1 (ids_stay_unique_except_on_replace (Scenario.always JNull) st H)).
Defined.

(** ** Rounding *)

Section Rounding.
Import SpecFloat.
Lemma shr_1_nonneg (r : shr_record) :
  (0 ≤ shr_m r)%Z → (0 ≤ shr_m (shr_1 r))%Z.
Proof. destruct r as [[|[p|p|]|p] r s]; simpl; lia. Qed.

Lemma iter_shr_1_nonneg (p : positive) (r : shr_record) :
  (0 ≤ shr_m r)%Z → (0 ≤ shr_m (iter_pos shr_1 p r))%Z.
Proof.
  revert r. induction p as [p IH|p IH|]; intros r Hr; simpl;
    auto using shr_1_nonneg.
Qed.

Lemma shr_fexp_nonneg (m e : Z) (l : location) :
  (0 ≤ m)%Z → (0 ≤ shr_m (shr_fexp prec emax m e l).1)%Z.
Proof.
  intros Hm. unfold shr_fexp, shr.
  assert (shr_m (shr_record_of_loc m l) = m) as Hl by (by destruct l as [|[]]).
  destruct (fexp prec emax (Zdigits2 m + e) - e)%Z; simpl;
    [by rewrite Hl | | by rewrite Hl].
  apply iter_shr_1_nonneg. by rewrite Hl.
Qed.

Lemma round_nearest_even_nonneg (m : Z) (l : location) :
  (0 ≤ m)%Z → (0 ≤ round_nearest_even m l)%Z.
Proof.
  intros Hm. destruct l as [|[]]; simpl; try done;
    [destruct (Z.even m)|]; lia.
Qed.

(** Rounding a mantissa that is not negative gives a zero, a finite
    number or an infinity, of the sign asked for. *)
Lemma binary_round_aux_sign (s : bool) (m e : Z) (l : location) :
  (0 ≤ m)%Z →
  match binary_round_aux prec emax s m e l with
  | S754_zero s' | S754_infinity s' | S754_finite s' _ _ => s' = s
  | S754_nan => False
  end.
Proof.
  intros Hm. unfold binary_round_aux.
  pose proof (shr_fexp_nonneg m e l Hm) as H1.
  destruct (shr_fexp prec emax m e l) as [mrs1 e1]. simpl in H1.
  pose proof (shr_fexp_nonneg _ e1 loc_Exact
                (round_nearest_even_nonneg _ (loc_of_shr_record mrs1) H1)) as H2.
  destruct (shr_fexp prec emax _ e1 loc_Exact) as [mrs2 e2]. simpl in H2.
  destruct (shr_m mrs2); [done| |lia].
  by destruct (_ <=? _)%Z.
Qed.

(** The quotient of two integers is a zero, or has the sign of the
    numerator. *)
Lemma SFdiv_integers_sign (n : Z) (d : positive) :
  match SFdiv prec emax (integer n) (integer (Z.pos d)) with
  | S754_zero _ => True
  | S754_infinity s | S754_finite s _ _ =>
      if s then (n < 0)%Z else (0 < n)%Z
  | S754_nan => False
  end.
Proof.
  destruct n as [|n|n]; simpl; [done| |].
  all: unfold SFdiv_core_binary;
    match goal with
    | |- context [Z.div_eucl ?a ?b] =>
        pose proof (Z.div_pos a b) as Hq; unfold Z.div in Hq;
        destruct (Z.div_eucl a b) as [q r]
    end;
    match goal with
    | |- context [binary_round_aux _ _ ?s ?m ?e ?l] =>
        pose proof (binary_round_aux_sign s m e l) as Hs;
        assert (0 ≤ m)%Z as Hm;
        [ apply Hq; [|done];
          match goal with
          | |- (0 ≤ match ?s with _ => _ end)%Z =>
              destruct s; [done | apply Z.shiftl_nonneg; lia | done]
          end
        | specialize (Hs Hm);
          destruct (binary_round_aux prec emax s m e l);
          try done; by rewrite Hs ]
    end.
Qed.

End Rounding.

Section Sign.

Local Open Scope Qc_scope.

(** A finite binary64 datum that is not a zero denotes a number that
    is not zero. *)
Lemma binary64_positive (m : positive) (e : Z) :
  0 < Qc_of_Z (Z.pos m) * Q2Qc (Qpower 2 e).
Proof.
  apply Qcmult_pos_pos.
  - by vm_compute.
  - change (0 < Qred (Qpower 2 e))%Q. rewrite Qred_correct.
    by apply Qpower_0_lt.
Qed.

(** Rounding keeps the sign: the result is not NaN, an infinity only for
    a number of its sign, and a finite result is on the same side of
    zero as the number (or is zero). *)
Lemma round64_sign (q : Qc) :
  match round64 q with
  | Fin r => (q ≤ 0 → r ≤ 0) ∧ (0 ≤ q → 0 ≤ r)
  | PosInf => 0 < q
  | NegInf => q < 0
  | NaN => False
  end.
Proof.
  unfold round64.
  pose proof (SFdiv_integers_sign (Qnum q) (Qden q)) as H.
  assert ((Qnum q < 0)%Z → q < 0) as Hneg.
  { intros Hz. unfold Qclt, Qlt. simpl. lia. }
  assert ((0 < Qnum q)%Z → 0 < q) as Hpos.
  { intros Hz. unfold Qclt, Qlt. simpl. lia. }
  destruct (SpecFloat.SFdiv _ _ _ _) as [s|[]| |[] m e]; simpl; try done;
    [by apply Hneg | by apply Hpos | |];
    pose proof (binary64_positive m e) as Hv; split.
  - intros _. apply Qclt_le_weak, Qcopp_le_compat in Hv. exact Hv.
  - intros Hq. exfalso. apply (Qcle_not_lt _ _ Hq). by apply Hneg.
  - intros Hq. exfalso. apply (Qcle_not_lt _ _ Hq). by apply Hpos.
  - intros _. by apply Qclt_le_weak.
Qed.

(** Rounding a rational never gives NaN. *)
Lemma round64_number (q : Qc) : round64 q ≠ NaN.
Proof. pose proof (round64_sign q) as H. by destruct (round64 q). Qed.

(** Some roundings: 0.1 and 1/3 are the doubles that the literals
    denote; above 2^53 a tie goes to the even mantissa; 2^1024 overflows
    and 2^-1075, half the smallest double, goes to zero. *)
Example round64_samples :
  round64 (Q2Qc (1 # 10)) = Fin (Q2Qc (3602879701896397 # 36028797018963968))
  ∧ round64 (Q2Qc (1 # 3))
    = Fin (Q2Qc (6004799503160661 # 18014398509481984))
  ∧ round64 (Qc_of_Z 9007199254740993) = Fin (Qc_of_Z 9007199254740992)
  ∧ round64 (Qc_of_Z 9007199254740995) = Fin (Qc_of_Z 9007199254740996)
  ∧ round64 (Q2Qc (Qpower 2 1024)) = PosInf
  ∧ round64 (Q2Qc (Qpower 2 (-1075))) = Fin 0.
Proof.
  repeat split; vm_compute; try reflexivity;
    f_equal; apply Qc_is_canon; reflexivity.
Qed.

(** On doubles, the four operations give what the operations of the
    standard library's specification of binary64 give: checked here on
    pairs of sample doubles (0.1, 3.1, 1/3, small integers, the largest
    and the smallest double, and their opposites). *)
Example arithmetic_agrees_with_binary64_samples :
  let double (m e : Z) := SpecFloat.binary_normalize prec emax m e false in
  let samples :=
    ([double 3602879701896397 (-55); double 6980579422424269 (-51);
      double 6004799503160661 (-54); double 1 0; double 3 0; double 100 0;
      double 200 0; double (-42) 0; double (-3602879701896397) (-55);
      double 9007199254740991 971; double 1 (-1074);
      double (-9007199254740991) 971])%Z in
  let agree (x y : SpecFloat.spec_float) :=
    num_eqb (of_binary64 (SpecFloat.SFadd prec emax x y))
            (js_add (of_binary64 x) (of_binary64 y))
    && num_eqb (of_binary64 (SpecFloat.SFsub prec emax x y))
               (js_sub (of_binary64 x) (of_binary64 y))
    && num_eqb (of_binary64 (SpecFloat.SFmul prec emax x y))
               (js_mul (of_binary64 x) (of_binary64 y))
    && num_eqb (of_binary64 (SpecFloat.SFdiv prec emax x y))
               (js_div (of_binary64 x) (of_binary64 y)) in
  forallb (λ x, forallb (agree x) samples) samples = true.
Proof. by vm_compute. Qed.

End Sign.

(** ** Percentages *)

Section Percent.

Local Open Scope Qc_scope.

Lemma hundred_nonneg : 0 ≤ hundred.
Proof. by vm_compute. Qed.

Lemma hundred_pos : 0 < hundred.
Proof. by vm_compute. Qed.

(** Clamping a number that is not NaN gives a percentage. *)
Lemma clamp_percent (n : num) :
  n ≠ NaN → percent (Math_min (Fin hundred) (Math_max (Fin 0) n)).
Proof.
  destruct n as [q| | |]; simpl; intros Hn.
  - destruct (decide (0 ≤ q)) as [H0|H0];
      [rewrite (bool_decide_true _ H0) | rewrite (bool_decide_false _ H0)];
      case_bool_decide as H1; simpl.
    + split; [exact hundred_nonneg | apply Qcle_refl].
    + split; [exact H0 | by apply Qclt_le_weak, Qcnot_le_lt].
    + split; [exact hundred_nonneg | apply Qcle_refl].
    + split; [apply Qcle_refl | exact hundred_nonneg].
  - split; [exact hundred_nonneg | apply Qcle_refl].
  - split; [apply Qcle_refl | exact hundred_nonneg].
  - done.
Qed.

(** The offset from an edge, divided by a positive length and scaled by
    100, is a number: finite, or an infinity when a step overflows. *)
Lemma ratio_number (p origin length : Qc) :
  0 < length →
  js_mul (js_div (js_sub (Fin p) (Fin origin)) (Fin length)) (Fin hundred)
    ≠ NaN.
Proof.
  intros Hl.
  assert (length ≠ 0) as Hl0 by (intros ->; by apply (Qclt_not_eq 0 0)).
  assert (¬ length < 0) as Hl1 by (by apply Qcle_not_lt, Qclt_le_weak).
  assert (∀ n, n ≠ NaN → js_mul n (Fin hundred) ≠ NaN) as Hmul.
  { intros [x| | |] Hn; simpl; [apply round64_number|done|done|done]. }
  apply Hmul. simpl.
  pose proof (round64_number (p - origin)) as H.
  destruct (round64 (p - origin)) as [x| | |]; simpl; [| | |done].
  - rewrite (bool_decide_false _ Hl0). apply round64_number.
  - by rewrite (bool_decide_false _ Hl1).
  - by rewrite (bool_decide_false _ Hl1).
Qed.

Lemma getPercentFromPointer_percent container e :
  positive_size container →
  percent (getPercentFromPointer container e).1
  ∧ percent (getPercentFromPointer container e).2.
Proof.
  destruct container as [rect|]; unfold getPercentFromPointer.
  - intros [Hw Hh]. split; by apply clamp_percent, ratio_number.
  - intros _. repeat split; try apply Qcle_refl; exact hundred_nonneg.
Qed.

Lemma handlePointerDown_in_range container e deviceId c :
  positive_size container →
  Forall callback_in_range (handlePointerDown container e deviceId c).2.
Proof.
  intros H. apply (getPercentFromPointer_percent _ e) in H.
  unfold handlePointerDown.
  destruct (getPercentFromPointer container e) as [x y].
  repeat constructor; apply H.
Qed.

Lemma handlePointerMove_in_range container e c :
  positive_size container →
  Forall callback_in_range (handlePointerMove container e c).2.
Proof.
  intros H. apply (getPercentFromPointer_percent _ e) in H.
  unfold handlePointerMove.
  destruct (negate (draggingId c)); [constructor|].
  destruct (getPercentFromPointer container e) as [x y].
  repeat constructor; apply H.
Qed.

Lemma finishDrag_in_range container e c :
  positive_size container →
  Forall callback_in_range (finishDrag container e c).2.
Proof.
  intros H. apply (getPercentFromPointer_percent _ e) in H.
  unfold finishDrag.
  destruct (negate (draggingId c)); [constructor|].
  destruct (getPercentFromPointer container e) as [x y]. simpl.
  destruct (didMoveRef c); repeat constructor; apply H.
Qed.

(** Every call made during any run of pointer events carries
    percentages. *)
Lemma run_in_range events c :
  Forall (λ ce, positive_size ce.1) events →
  Forall callback_in_range (run events c).2.
Proof.
  intros H. revert c.
  induction H as [|[container ev] events Hc _ IH]; intros c; simpl.
  - constructor.
  - destruct (handle container ev c) as [c1 out1] eqn:E1.
    destruct (run events c1) as [c2 out2] eqn:E2. simpl.
    apply Forall_app. split.
    + change out1 with (c1, out1).2. rewrite <- E1.
      destruct ev; simpl;
        auto using handlePointerDown_in_range, handlePointerMove_in_range,
                   finishDrag_in_range.
    + change out2 with (c2, out2).2. rewrite <- E2. apply IH.
Qed.

(** Without a positive size the quotient need not be a number: on a
    canvas of width 0 a pointer on its left edge gives 0/0. *)
Example collapsed_canvas_gives_NaN :
  let rect := {| rect_left := 0; rect_top := 0;
                 rect_width := 0; rect_height := Qc_of_Z 100 |} in
  (getPercentFromPointer (Some rect) {| clientX := 0; clientY := 0 |}).1 = NaN.
Proof. by vm_compute. Qed.

(** The quotient and the product are rounded: a pointer 1px into a
    canvas 3px wide is at 33.33333333333333, the double
    2345624805922133 / 2^46, not at 100/3. *)
Example third_of_the_width_is_rounded :
  let rect := {| rect_left := 0; rect_top := 0;
                 rect_width := Qc_of_Z 3; rect_height := Qc_of_Z 3 |} in
  let x := (getPercentFromPointer (Some rect)
              {| clientX := Qc_of_Z 1; clientY := 0 |}).1 in
  x = Fin (Q2Qc (2345624805922133 # 70368744177664))
  ∧ x ≠ Fin (hundred / Qc_of_Z 3).
Proof.
  split.
  - vm_compute. f_equal. apply Qc_is_canon. reflexivity.
  - intros H. apply (f_equal (λ n, match n with Fin q => Qnum q | _ => 0%Z end)) in H.
    vm_compute in H. discriminate.
Qed.

End Percent.

(** C6.  For a canvas with positive width and height (or no canvas yet)
    and any pointer position, inside or outside the canvas, the computed
    coordinates are finite numbers between 0 and 100; so are the
    coordinates of every preview and commit that pointer-down,
    pointer-move and the end of a drag emit. *)
Theorem drag_coordinates_are_percentages
    (container : option DOMRect) (e : pointer) :
  positive_size container →
  (percent (getPercentFromPointer container e).1
   ∧ percent (getPercentFromPointer container e).2)
  ∧ ∀ (c : canvas) (deviceId : jsval),
      Forall callback_in_range (handlePointerDown container e deviceId c).2
      ∧ Forall callback_in_range (handlePointerMove container e c).2
      ∧ Forall callback_in_range (finishDrag container e c).2.
Proof.
  intros H. split; [by apply getPercentFromPointer_percent|].
  intros c deviceId.
  auto using handlePointerDown_in_range, handlePointerMove_in_range,
             finishDrag_in_range.
Qed.

Lemma drag_coordinates_witness :
  let container := (Room.at_ (-40) 250).1 in
  let e := (Room.at_ (-40) 250).2 in
  positive_size container
  ∧ percent (getPercentFromPointer container e).1
  ∧ percent (getPercentFromPointer container e).2.
Proof.
  intros container e.
  assert (positive_size container) as H by (split; vm_compute; reflexivity).
  split; [exact H|].
  exact (proj1 (drag_coordinates_are_percentages container e H)).
Defined.

(** ** Serving the canvas *)

(** A preview changes the device list only; a commit makes one PATCH;
    opening the settings navigates. *)
Lemma serve_calls (o : rest_outcome) (cb : callback) st :
  calls (trace_of (serve o cb) st) =
    match cb with
    | onPositionCommit deviceId x y =>
        [updateDevice deviceId
           {[ "position_x" := SNum x; "position_y" := SNum y ]}]
    | _ => []
    end.
Proof. destruct cb; [done| |done]. by destruct o. Qed.

(** ** Stored positions *)

Section Positions.

Implicit Types (d u : device) (l : list device).

Lemma percent_b_true (n : num) : percent n → percent_b n = true.
Proof.
  destruct n; simpl; try done. intros [H0 H1].
  by rewrite !bool_decide_true.
Qed.

Lemma positions_ok_spread d u :
  positions_ok d = true → positions_ok u = true →
  positions_ok (spread d u) = true.
Proof.
  unfold positions_ok. rewrite !lookup_spread. intros Hd Hu.
  apply andb_true_iff in Hd as [Hdx Hdy].
  apply andb_true_iff in Hu as [Hux Huy].
  destruct (u !! "position_x"), (u !! "position_y");
    by rewrite ?Hdx, ?Hdy, ?Hux, ?Huy.
Qed.

Lemma positions_ok_insert_other (k : string) (v : scalar) d :
  k ≠ "position_x" → k ≠ "position_y" →
  positions_ok (<[k := v]> d) = positions_ok d.
Proof.
  intros Hx Hy. unfold positions_ok. by rewrite !device_lookup_insert_ne.
Qed.

Lemma positions_ok_moved (x y : num) d :
  positions_ok (<["position_y" := SNum y]> (<["position_x" := SNum x]> d))
    = percent_b x && percent_b y.
Proof.
  unfold positions_ok.
  rewrite device_lookup_insert_ne by done.
  by rewrite !device_lookup_insert.
Qed.

Lemma all_positions_ok_patch (c : device → bool) (f : device → device) l :
  (∀ d, positions_ok d = true → positions_ok (f d) = true) →
  all_positions_ok l = true →
  all_positions_ok (map (λ d, if c d then f d else d) l) = true.
Proof.
  intros Hf. unfold all_positions_ok.
  induction l as [|d l IH]; simpl; [done|].
  intros H. apply andb_true_iff in H as [Hd Hl].
  rewrite (IH Hl), andb_true_r.
  destruct (c d); [by apply Hf | done].
Qed.

Lemma applyDeviceUpdate_positions_ok l u :
  all_positions_ok l = true → positions_ok u = true →
  all_positions_ok (applyDeviceUpdate l u) = true.
Proof.
  intros Hl Hu. unfold applyDeviceUpdate.
  destruct (existsb _ l); simpl.
  - apply all_positions_ok_patch; [|done].
    intros d Hd. by apply positions_ok_spread.
  - unfold all_positions_ok in *. rewrite forallb_app. simpl.
    by rewrite Hl, Hu.
Qed.

End Positions.

(** C5, as stated: every stored position is within [0,100] after a
    [device_update].  The upsert stores the coordinates of the payload as
    they are: a payload with [position_x: 150] puts 150 in the list. *)
Lemma device_update_stores_position_unclamped :
  let far : device :=
    Obj {[ "id" := Scenario.number 7;
           "position_x" := Scenario.number 150;
           "position_y" := Scenario.number 50 ]} in
  let st := Scenario.mounted 1 [] in
  let after :=
    state_after
      (onmessage (Scenario.always (Scenario.device_update far)) "message") st in
  all_positions_ok (devices st) = true
  ∧ devices after = [far]
  ∧ all_positions_ok (devices after) = false.
Proof. by vm_compute. Qed.

(** C5, amended.  The device list does not clamp.  When every stored
    position is within [0,100] (or not set), this remains so after a
    position preview with coordinates the drag handler computed on a
    canvas of positive size, after the optimistic flip of a toggle and
    its revert, and after a message or a REST load whose device records
    themselves have positions within [0,100] (or not set). *)
Theorem positions_stay_percentages_if_received_ones_are
    (JSON_parse : string → option json_doc) (st : page) :
  all_positions_ok (devices st) = true →
  (∀ (container : option DOMRect) (e : pointer) (deviceId : jsval),
     positive_size container →
     all_positions_ok
       (devices (state_after
          (handleDevicePositionPreview deviceId
             (getPercentFromPointer container e).1
             (getPercentFromPointer container e).2) st)) = true)
  ∧ (∀ dev : device,
       all_positions_ok
         (devices (state_after (handleToggleDevice_begin dev) st)) = true)
  ∧ (∀ (dev : device) (err : rejection),
       all_positions_ok
         (devices (state_after (handleToggleDevice_catch dev err) st)) = true)
  ∧ (∀ s : string,
       message_positions_ok (JSON_parse s) = true →
       all_positions_ok
         (devices (state_after (onmessage JSON_parse s) st)) = true)
  ∧ (∀ (rooms : option (list (gmap string scalar)))
       (fetched : option (list device)),
       all_positions_ok (default [] fetched) = true →
       all_positions_ok
         (devices (state_after (load_end (Loaded rooms fetched)) st)) = true).
Proof.
  intros Hst. repeat split.
  - intros container e deviceId Hc.
    destruct (getPercentFromPointer_percent container e Hc) as [Hx Hy].
    unfold handleDevicePositionPreview, state_after. simpl.
    apply all_positions_ok_patch; [|done]. intros d _.
    by rewrite positions_ok_moved, !percent_b_true.
  - intros dev. unfold handleToggleDevice_begin, state_after. simpl.
    destruct (isDigital dev); simpl; [|done].
    apply all_positions_ok_patch; [|done]. intros d Hd.
    by rewrite positions_ok_insert_other.
  - intros dev err. unfold handleToggleDevice_catch, state_after. simpl.
    apply all_positions_ok_patch; [|done]. intros d Hd.
    by rewrite positions_ok_insert_other.
  - intros s Hs. rewrite onmessage_state. simpl. unfold received.
    destruct (JSON_parse s) as [[|[t dev snap]]|]; simpl in *; try done.
    apply andb_true_iff in Hs as [Hdev Hsnap].
    destruct (strict_eq t (of_string "device_update")).
    + destruct dev as [dev|]; [|done].
      destruct (device_truthy dev); [|done].
      by apply applyDeviceUpdate_positions_ok.
    + destruct (strict_eq t (of_string "devices_snapshot")); [|done].
      by destruct snap.
  - intros rooms fetched Hf. by rewrite load_end_devices.
Qed.

Lemma positions_stay_percentages_witness :
  let st := Scenario.mounted 1 [Scenario.thermometer; Scenario.lamp] in
  all_positions_ok (devices st) = true
  ∧ ∀ (container : option DOMRect) (e : pointer) (deviceId : jsval),
      positive_size container →
      all_positions_ok
        (devices (state_after
           (handleDevicePositionPreview deviceId
              (getPercentFromPointer container e).1
              (getPercentFromPointer container e).2) st)) = true.
Proof.
  intros st.
  assert (all_positions_ok (devices st) = true) as H
    by (vm_compute; reflexivity).
  split; [exact H|].
  exact (proj1 (positions_stay_percentages_if_received_ones_are
                  (Scenario.always JNull) st H)).
Defined.

(** ** Click or drag *)

Section Gesture.

Local Open Scope Qc_scope.

Implicit Types (c : canvas) (moves : list (option DOMRect * pointer)).

Lemma run_app events1 events2 c :
  run (events1 ++ events2) c =
    let '(c1, out1) := run events1 c in
    let '(c2, out2) := run events2 c1 in
    (c2, out1 ++ out2).
Proof.
  revert c. induction events1 as [|[container ev] events1 IH]; intros c; simpl.
  - by destruct (run events2 c).
  - destruct (handle container ev c) as [c1 out1].
    rewrite IH. destruct (run events1 c1) as [c2 out2].
    destruct (run events2 c2) as [c3 out3]. by rewrite app_assoc.
Qed.

(** While a drag is on, pointer-moves keep the dragged id and the drag
    start, remember whether one of them went beyond the threshold, and
    emit one preview each. *)
Lemma run_moves moves c :
  truthy (draggingId c) = true →
  run (map (λ m, (m.1, PointerMove m.2)) moves) c =
    ({| draggingId := draggingId c;
        dragStartRef := dragStartRef c;
        didMoveRef := didMoveRef c || moved_beyond (dragStartRef c) moves |},
     map (λ m, onPositionPreview (draggingId c)
                 (getPercentFromPointer m.1 m.2).1
                 (getPercentFromPointer m.1 m.2).2) moves).
Proof.
  revert c. induction moves as [|[container e] moves IH]; intros c Hc; simpl.
  - rewrite orb_false_r. by destruct c.
  - unfold handlePointerMove, negate. rewrite Hc. simpl.
    destruct (getPercentFromPointer container e) as [x y] eqn:E.
    rewrite IH by done. simpl. f_equal.
    f_equal. destruct (js_gt _ _), (didMoveRef c); done.
Qed.

Lemma filter_previews (P : callback → bool) (f : option DOMRect * pointer → callback) moves :
  (∀ m, P (f m) = false) → List.filter P (map f moves) = [].
Proof.
  intros H. induction moves as [|m moves IH]; simpl; [done|].
  by rewrite H.
Qed.

(** The calls of a whole gesture. *)
Lemma run_gesture deviceId down moves leave release c :
  truthy deviceId = true →
  let start := (clientX down.2, clientY down.2) in
  run (gesture deviceId down moves leave release) c =
    ({| draggingId := Some SNull;
        dragStartRef := start;
        didMoveRef := moved_beyond start moves |},
     onPositionPreview deviceId
       (getPercentFromPointer down.1 down.2).1
       (getPercentFromPointer down.1 down.2).2
     :: map (λ m, onPositionPreview deviceId
                    (getPercentFromPointer m.1 m.2).1
                    (getPercentFromPointer m.1 m.2).2) moves
     ++ [onPositionPreview deviceId
           (getPercentFromPointer release.1 release.2).1
           (getPercentFromPointer release.1 release.2).2;
         onPositionCommit deviceId
           (getPercentFromPointer release.1 release.2).1
           (getPercentFromPointer release.1 release.2).2]
     ++ (if moved_beyond start moves then []
         else [onOpenDeviceSettings deviceId])).
Proof.
  intros Hid start. unfold gesture. simpl.
  unfold handlePointerDown.
  destruct (getPercentFromPointer down.1 down.2) as [x0 y0] eqn:E0.
  rewrite run_app, run_moves by done. simpl.
  assert (∀ c', truthy (draggingId c') = true →
            finishDrag release.1 release.2 c' =
              ({| draggingId := Some SNull;
                  dragStartRef := dragStartRef c';
                  didMoveRef := didMoveRef c' |},
               [onPositionPreview (draggingId c')
                  (getPercentFromPointer release.1 release.2).1
                  (getPercentFromPointer release.1 release.2).2;
                onPositionCommit (draggingId c')
                  (getPercentFromPointer release.1 release.2).1
                  (getPercentFromPointer release.1 release.2).2]
               ++ (if negb (didMoveRef c') then
                     [onOpenDeviceSettings (draggingId c')] else []))) as Hfin.
  { intros c' Hc'. unfold finishDrag, negate. rewrite Hc'. simpl.
    by destruct (getPercentFromPointer release.1 release.2). }
  destruct leave; simpl; rewrite Hfin by done; simpl;
    subst start; by destruct (moved_beyond _ moves).
Qed.

(** A marker whose id is falsy (0, the empty string, [null], no id) is
    never dragged: the handlers read the id as "no drag is on". *)
Lemma run_gesture_falsy_id deviceId down moves leave release c :
  truthy deviceId = false →
  (run (gesture deviceId down moves leave release) c).2 =
    [onPositionPreview deviceId
       (getPercentFromPointer down.1 down.2).1
       (getPercentFromPointer down.1 down.2).2].
Proof.
  intros Hid. unfold gesture. simpl. unfold handlePointerDown.
  destruct (getPercentFromPointer down.1 down.2) as [x0 y0].
  set (c1 := {| draggingId := deviceId;
                dragStartRef := (clientX down.2, clientY down.2);
                didMoveRef := false |}).
  assert (∀ events,
            Forall (λ ce, match ce.2 with PointerDown _ _ => False | _ => True end)
              events →
            run events c1 = (c1, [])) as Hidle.
  { induction 1 as [|[container ev] events Hev _ IH]; simpl; [done|].
    destruct ev; simpl in *; try done;
      unfold handlePointerMove, finishDrag, negate; simpl;
      rewrite Hid; simpl; by rewrite IH. }
  rewrite Hidle; [done|].
  apply Forall_app. split.
  - induction moves; simpl; by constructor.
  - constructor; [by destruct leave | constructor].
Qed.

End Gesture.

(** Two computed lists of calls are equal when their numbers are equal
    as rationals. *)
Ltac same_calls :=
  repeat match goal with
    | |- @eq (list _) (_ :: _) (_ :: _) => f_equal
    | |- @eq callback _ _ => f_equal
    | |- @eq num (Fin _) (Fin _) => f_equal
    | |- @eq Qc _ _ => apply Qc_is_canon; reflexivity
    | |- _ => reflexivity
    end.

(** C7.  A marker 2px from the left edge of a canvas 200px wide is
    pressed, and the pointer leaves the canvas 42px further left before
    any pointer-move is seen.  The release is far beyond the threshold
    ([distanceSq] is 1764), yet the gesture is treated as a click: the
    commit carries the position of the release (0%, not the 1% of the
    pointer-down) and the settings navigation is called.  Only
    [handlePointerMove] compares with the threshold; [finishDrag] does
    not look at where the pointer is released. *)
Theorem fast_leave_commits_and_opens_settings :
  let id := Some (Scenario.number 7) in
  let down := Room.at_ 2 50 in
  let release := Room.at_ (-40) 50 in
  let calls := (run (gesture id down [] true release) idle).2 in
  js_gt (distanceSq (clientX down.2, clientY down.2) release.2) (Fin nine)
    = true
  ∧ calls =
      [onPositionPreview id (Fin (Qc_of_Z 1)) (Fin (Qc_of_Z 50));
       onPositionPreview id (Fin (Qc_of_Z 0)) (Fin (Qc_of_Z 50));
       onPositionCommit id (Fin (Qc_of_Z 0)) (Fin (Qc_of_Z 50));
       onOpenDeviceSettings id].
Proof.
  split; [by vm_compute|].
  vm_compute. same_calls.
Qed.

(** The threshold is compared in doubles.  Between a press at x = 0.1
    and a move at x = 3.1 the two doubles are a little more than 3px
    apart, but their difference rounds to 3 and its square is 9, which
    is not greater than 9: the move does not count, and the gesture is a
    click. *)
Example threshold_is_compared_after_rounding :
  let id := Some (Scenario.number 7) in
  let down := (Some Room.canvas_rect,
               {| clientX := Room.double 1 10; clientY := Qc_of_Z 50 |}) in
  let move := (Some Room.canvas_rect,
               {| clientX := Room.double 31 10; clientY := Qc_of_Z 50 |}) in
  let start := (clientX down.2, clientY down.2) in
  (Qc_of_Z 3 < clientX move.2 - clientX down.2)%Qc
  ∧ distanceSq start move.2 = Fin nine
  ∧ moved_beyond start [move] = false
  ∧ List.filter opens_settings
      (run (gesture id down [move] false move) idle).2
    = [onOpenDeviceSettings id].
Proof.
  split; [by vm_compute|]. split.
  - vm_compute. f_equal. apply Qc_is_canon. reflexivity.
  - split; by vm_compute.
Qed.

(** ** Creating a device *)

Section Create.

Variable JSON_parse : string → option json_doc.

Lemma str_or_empty (s : string) : str_or (Some s) "" = s.
Proof. unfold str_or. by case_bool_decide. Qed.

(** Messages change the device list only and make no REST call. *)
Lemma deliver_state (messages : list string) st :
  ∃ l, state_after (deliver JSON_parse messages) st = with_devices (λ _, l) st.
Proof.
  revert st. induction messages as [|m messages IH]; intros st; simpl.
  - exists (devices st). by destruct st.
  - rewrite state_after_bind, onmessage_state.
    destruct (IH (with_devices (received (JSON_parse m)) st)) as [l Hl].
    exists l. by rewrite Hl.
Qed.

Lemma deliver_calls (messages : list string) st :
  calls (trace_of (deliver JSON_parse messages) st) = [].
Proof.
  revert st. induction messages as [|m messages IH]; intros st; simpl.
  - done.
  - rewrite trace_of_bind, calls_app, IH, onmessage_trace.
    by destruct (JSON_parse m) as [[|?]|].
Qed.

Lemma load_begin_run (isRefresh : bool) st :
  new_device_form (state_after (load_begin isRefresh) st) = new_device_form st
  ∧ calls (trace_of (load_begin isRefresh) st)
      = [getRooms; getRoomDevices (numericRoomId st)].
Proof. by destruct isRefresh. Qed.

Lemma load_end_run (o : load_outcome) st :
  new_device_form (state_after (load_end o) st) = new_device_form st
  ∧ calls (trace_of (load_end o) st) = [].
Proof.
  unfold load_end, state_after, trace_of, mbind, M_bind, read.
  destruct o as [rooms fetched|err]; simpl.
  - match goal with |- context [find ?f ?l] => destruct (find f l) end; done.
  - destruct (bool_decide (rej_status err = Some 401%Z)
              || bool_decide (rej_status err = Some 403%Z)); done.
Qed.

Lemma reload_run (s : schedule) st :
  new_device_form (state_after (reload JSON_parse s) st) = new_device_form st
  ∧ calls (trace_of (reload JSON_parse s) st)
      = [getRooms; getRoomDevices (numericRoomId st)].
Proof.
  unfold reload.
  rewrite !state_after_bind, !trace_of_bind, !calls_app.
  destruct (deliver_state (during_reload s) (state_after (load_begin true) st))
    as [l Hl].
  destruct (load_end_run (reload_outcome s)
              (state_after (deliver JSON_parse (during_reload s))
                 (state_after (load_begin true) st))) as [Hf Hc].
  rewrite Hf, Hc, deliver_calls, Hl.
  destruct (load_begin_run true st) as [Hf0 Hc0].
  rewrite Hc0. split; [|done]. by rewrite <- Hf0.
Qed.

Lemma handleCreateDevice_begin_empty st :
  newDeviceName st = "" → handleCreateDevice_begin st = (false, st, []).
Proof.
  intros H. unfold handleCreateDevice_begin, mbind, M_bind, read.
  by rewrite H.
Qed.

Lemma handleCreateDevice_begin_named st :
  newDeviceName st ≠ "" →
  handleCreateDevice_begin st =
    (true, with_error (of_string "") st,
     [Call (createDevice (new_device_payload st))]).
Proof.
  intros H. unfold handleCreateDevice_begin, mbind, M_bind, read.
  cbv beta. rewrite bool_decide_false by done. simpl.
  unfold new_device_payload.
  destruct (decide (newDeviceLocation st = "")) as [E|E];
    [rewrite (bool_decide_true _ E) | rewrite (bool_decide_false _ E)];
    by rewrite ?E.
Qed.

(** The whole handler when the name is not empty. *)
Lemma handleCreateDevice_named (s : schedule) st :
  newDeviceName st ≠ "" →
  List.filter is_post_devices
    (calls (trace_of (handleCreateDevice JSON_parse s) st))
    = [createDevice (new_device_payload st)]
  ∧ match command_outcome s with
    | Resolved =>
        new_device_form (state_after (handleCreateDevice JSON_parse s) st)
          = ("", "light", "")
    | Failed err =>
        new_device_form (state_after (handleCreateDevice JSON_parse s) st)
          = new_device_form st
        ∧ error (state_after (handleCreateDevice JSON_parse s) st)
          = (if truthy (detail_of err) then detail_of err
             else of_string "Could not create device.")
    end.
Proof.
  intros H.
  pose proof (handleCreateDevice_begin_named st H) as Hb.
  assert (result_of handleCreateDevice_begin st = true) as Hr
    by (unfold result_of; by rewrite Hb).
  assert (state_after handleCreateDevice_begin st
            = with_error (of_string "") st) as Hs
    by (unfold state_after; by rewrite Hb).
  assert (trace_of handleCreateDevice_begin st
            = [Call (createDevice (new_device_payload st))]) as Ht
    by (unfold trace_of; by rewrite Hb).
  clear Hb. unfold handleCreateDevice.
  destruct (deliver_state (during_command s) (with_error (of_string "") st))
    as [l Hl].
  destruct (command_outcome s) as [|err];
    rewrite state_after_bind, trace_of_bind, Hr, Hs, Ht;
    rewrite trace_of_bind, state_after_bind, !calls_app, deliver_calls, Hl.
  - rewrite trace_of_bind, state_after_bind, calls_app.
    destruct (reload_run s
                (state_after (modify (with_new_device_form "" "light" ""))
                   (with_devices (λ _, l) (with_error (of_string "") st))))
      as [Hf Hc].
    rewrite Hf, Hc. done.
  - done.
Qed.

End Create.

(** C8.  Submitting the add-device form with an empty name makes no
    request and changes nothing.  With a name, whatever the live channel
    delivers meanwhile and however the calls end, exactly one POST to
    /devices/ is made; its payload has the room of the page, the name,
    type and location of the form, [is_on: false], and
    [device_kind: sensor, signal_type: analog] for the type [sensor],
    [device_kind: actuator, signal_type: digital] for any other type.
    When the POST succeeds the form is back to its initial values; when
    it fails the form is as it was and the error shown is the server's
    [detail] or the fallback text. *)
Theorem create_device_posts_once
    (JSON_parse : string → option json_doc) (s : schedule) (st : page) :
  if bool_decide (newDeviceName st = "") then
    trace_of (handleCreateDevice JSON_parse s) st = []
    ∧ state_after (handleCreateDevice JSON_parse s) st = st
  else
    List.filter is_post_devices
      (calls (trace_of (handleCreateDevice JSON_parse s) st))
      = [createDevice
           {[ "room" := SNum (numericRoomId st);
              "name" := SStr (newDeviceName st);
              "device_type" := SStr (newDeviceType st);
              "device_kind" :=
                SStr (if bool_decide (newDeviceType st = "sensor")
                      then "sensor" else "actuator");
              "signal_type" :=
                SStr (if bool_decide (newDeviceType st = "sensor")
                      then "analog" else "digital");
              "location" := SStr (newDeviceLocation st);
              "is_on" := SBool false ]}]
    ∧ match command_outcome s with
      | Resolved =>
          new_device_form (state_after (handleCreateDevice JSON_parse s) st)
            = ("", "light", "")
      | Failed err =>
          new_device_form (state_after (handleCreateDevice JSON_parse s) st)
            = new_device_form st
          ∧ error (state_after (handleCreateDevice JSON_parse s) st)
            = (if truthy (detail_of err) then detail_of err
               else of_string "Could not create device.")
      end.
Proof.
  case_bool_decide as H.
  - unfold handleCreateDevice, trace_of, state_after, mbind, M_bind.
    by rewrite (handleCreateDevice_begin_empty st H).
  - by apply handleCreateDevice_named.
Qed.

(** The scenario of the specification: the name Lamp and the type light
    in room 5. *)
Example create_lamp_in_room_5 :
  let st := Scenario.typed "Lamp" "light" "" (Scenario.mounted 5 []) in
  let s := Scenario.quiet Resolved [] in
  calls (trace_of (handleCreateDevice (Scenario.always JNull) s) st) =
    [createDevice
       {[ "room" := Scenario.number 5;
          "name" := SStr "Lamp";
          "device_type" := SStr "light";
          "device_kind" := SStr "actuator";
          "signal_type" := SStr "digital";
          "location" := SStr "";
          "is_on" := SBool false ]};
     getRooms;
     getRoomDevices (Fin (Qc_of_Z 5))].
Proof. by vm_compute. Qed.

(** * Further properties of the code *)

(** ** The base URL *)

Section BaseUrl.

Lemma append_empty (s : string) : String.append "" s = s.
Proof. reflexivity. Qed.

Lemma append_String (c : Ascii.ascii) (s t : string) :
  String.append (String c s) t = String c (String.append s t).
Proof. reflexivity. Qed.

Lemma stripTrailingSlashes_split (s : string) :
  ∃ n, s = String.append (stripTrailingSlashes s) (slashes n).
Proof.
  induction s as [|c rest [n IH]]; simpl.
  - by exists O.
  - case_bool_decide as Hc; simpl.
    + case_bool_decide as Hr; simpl.
      * exists (S n). rewrite Hr, append_empty in IH.
        rewrite append_empty. simpl. by rewrite Hc, <- IH.
      * exists n. rewrite append_String. by rewrite <- IH.
    + exists n. rewrite append_String. by rewrite <- IH.
Qed.

Lemma stripTrailingSlashes_end (s : string) :
  ends_with_slash (stripTrailingSlashes s) = false.
Proof.
  induction s as [|c rest IH]; simpl; [done|].
  destruct (stripTrailingSlashes rest) as [|c' rest'] eqn:E.
  - rewrite andb_true_r. case_bool_decide as Hc; simpl; [done|].
    by rewrite bool_decide_false.
  - rewrite andb_false_r. simpl. exact IH.
Qed.

Lemma stripTrailingSlashes_fixed (s : string) :
  ends_with_slash s = false → stripTrailingSlashes s = s.
Proof.
  induction s as [|c rest IH]; simpl; [done|].
  destruct rest as [|c' rest'].
  - intros Hc. simpl. by rewrite Hc.
  - intros H. rewrite (IH H). by rewrite andb_false_r.
Qed.

End BaseUrl.

(** X1.  Normalising the base URL removes exactly the slashes at its
    end: the input is the result followed by slashes only, the result
    does not end in a slash, a string that does not end in a slash is
    left as it is (so normalising twice changes nothing more), and the
    resolved [API_BASE_URL] never ends in a slash, whatever the
    overrides. *)
Theorem base_url_loses_exactly_its_trailing_slashes (s : string) :
  (∃ n, s = String.append (stripTrailingSlashes s) (slashes n))
  ∧ ends_with_slash (stripTrailingSlashes s) = false
  ∧ (ends_with_slash s = false → stripTrailingSlashes s = s)
  ∧ stripTrailingSlashes (stripTrailingSlashes s) = stripTrailingSlashes s
  ∧ ∀ env window_override : option string,
      ends_with_slash (resolve_API_BASE_URL env window_override) = false.
Proof.
  split; [apply stripTrailingSlashes_split|].
  split; [apply stripTrailingSlashes_end|].
  split; [apply stripTrailingSlashes_fixed|].
  split.
  - apply stripTrailingSlashes_fixed, stripTrailingSlashes_end.
  - intros env window_override. apply stripTrailingSlashes_end.
Qed.

(** ** Credentials on requests *)

Section Credentials.

Lemma requestInterceptor_headers (ls : localStorage) (c : request_config) :
  headers_of (requestInterceptor ls c) =
    match stored_token ls with
    | Some t => <["Authorization" := String.append "Token " t]> (headers_of c)
    | None => headers_of c
    end.
Proof.
  unfold requestInterceptor, stored_token, headers_of.
  destruct ls as [message|m]; simpl; [done|].
  destruct (m !! "authToken") as [t|]; [|done].
  by case_bool_decide.
Qed.

Lemma requestInterceptor_without_token (ls : localStorage) (c : request_config) :
  stored_token ls = None → requestInterceptor ls c = c.
Proof.
  unfold requestInterceptor, stored_token.
  destruct ls as [message|m]; simpl; [done|].
  destruct (m !! "authToken") as [t|]; [|done].
  by case_bool_decide.
Qed.

End Credentials.

(** X2.  The request interceptor sets [Authorization] to [Token]
    followed by the stored token when the storage can be read and holds a
    non-empty [authToken]; every other header and the rest of the
    configuration are kept.  Without such a token (none stored, an empty
    one, or a storage that throws) the configuration passes through
    unchanged, with whatever [Authorization] it already had.  Running the
    interceptor twice gives the same headers as running it once. *)
Theorem request_interceptor_attaches_stored_token
    (ls : localStorage) (c : request_config) :
  match stored_token ls with
  | Some t =>
      headers_of (requestInterceptor ls c) !! "Authorization"
        = Some (String.append "Token " t)
      ∧ ∀ k : string, k ≠ "Authorization" →
          headers_of (requestInterceptor ls c) !! k = headers_of c !! k
  | None => requestInterceptor ls c = c
  end
  ∧ config (requestInterceptor ls c) = config c
  ∧ headers_of (requestInterceptor ls (requestInterceptor ls c))
      = headers_of (requestInterceptor ls c).
Proof.
  split; [|split].
  - destruct (stored_token ls) as [t|] eqn:E.
    + rewrite requestInterceptor_headers, E. split.
      * by rewrite lookup_insert_eq.
      * intros k Hk. by rewrite lookup_insert_ne.
    + by apply requestInterceptor_without_token.
  - unfold requestInterceptor.
    destruct (getItem "authToken" ls) as [[t|]|]; try done.
    by case_bool_decide.
  - rewrite !requestInterceptor_headers.
    destruct (stored_token ls); [|done]. by rewrite insert_insert_eq.
Qed.

Section Tokens.

Variable JSON_stringify : gmap string scalar → string.

Lemma store_credentials_readable (token : option string)
    (user : option (gmap string scalar)) (m : gmap string string) :
  ∃ m', store_credentials JSON_stringify token user (Items m)
        = (AuthResolved {| cred_token := token; cred_user := user |}, Items m')
      ∧ m' !! "authToken" =
          (if is_truthy token then token else m !! "authToken")
      ∧ m' !! "authUser" =
          match user with
          | Some u => Some (JSON_stringify u)
          | None => m !! "authUser"
          end.
Proof.
  unfold store_credentials.
  destruct token as [t|], user as [u|]; simpl;
    try case_bool_decide; simpl; eexists; (split; [reflexivity|]);
    rewrite ?lookup_insert_eq, ?lookup_insert_ne by done;
    rewrite ?lookup_insert_eq; done.
Qed.

Lemma stored_token_lookup (m : gmap string string) :
  stored_token (Items m) =
    if is_truthy (m !! "authToken") then m !! "authToken" else None.
Proof.
  unfold stored_token, is_truthy.
  destruct (m !! "authToken") as [t|]; [|done]. by case_bool_decide.
Qed.

End Tokens.

(** X3.  [login] and [register] resolve with the response's [token], or
    its [key] when the token is missing or empty.  When that value is
    not empty it becomes the stored token, and every later request
    carries it; when it is empty or missing, the token stored before
    stays in place and keeps being sent.  A rejected POST rejects the
    call and leaves the storage untouched. *)
Theorem login_decides_the_token_of_later_requests
    (JSON_stringify : gmap string scalar → string)
    (data : auth_data) (m : gmap string string) :
  let token := first_truthy (data_token data) (data_key data) in
  let after := (login JSON_stringify (PostResolved data) (Items m)).2 in
  (login JSON_stringify (PostResolved data) (Items m)).1
    = AuthResolved {| cred_token := token; cred_user := login_user data |}
  ∧ (register JSON_stringify (PostResolved data) (Items m)).1
    = AuthResolved {| cred_token := token; cred_user := data_user data |}
  ∧ stored_token after
    = (if is_truthy token then token else stored_token (Items m))
  ∧ stored_token (register JSON_stringify (PostResolved data) (Items m)).2
    = stored_token after
  ∧ (∀ c : request_config,
       headers_of (requestInterceptor after c) !! "Authorization" =
         match (if is_truthy token then token else stored_token (Items m)) with
         | Some t => Some (String.append "Token " t)
         | None => headers_of c !! "Authorization"
         end)
  ∧ ∀ (err : rejection) (ls : localStorage),
      login JSON_stringify (PostRejected err) ls
        = (AuthRejected (ThrownRejection err), ls)
      ∧ register JSON_stringify (PostRejected err) ls
        = (AuthRejected (ThrownRejection err), ls).
Proof.
  intros token after. subst after. unfold login, register.
  fold token. fold (login_user data).
  destruct (store_credentials_readable JSON_stringify token (login_user data) m)
    as (m1 & E1 & T1 & _).
  destruct (store_credentials_readable JSON_stringify token (data_user data) m)
    as (m2 & E2 & T2 & _).
  rewrite E1, E2. cbn [fst snd].
  assert (stored_token (Items m1)
          = (if is_truthy token then token else stored_token (Items m))) as H1.
  { rewrite !stored_token_lookup, T1.
    destruct (is_truthy token) eqn:E; by rewrite ?E. }
  assert (stored_token (Items m2) = stored_token (Items m1)) as H2.
  { rewrite !stored_token_lookup, T1, T2. done. }
  split; [done|]. split; [done|]. split; [exact H1|]. split; [exact H2|].
  split; [|done].
  intros c. rewrite requestInterceptor_headers, H1.
  destruct (if is_truthy token then token else stored_token (Items m));
    [by rewrite lookup_insert_eq | done].
Qed.

(** X4.  [logout] does not look at how the POST ended.  On a readable
    storage it resolves, removes exactly [authToken] and [authUser], and
    afterwards requests pass the interceptor unchanged; on a storage that
    throws it rejects with that error. *)
Theorem logout_forgets_the_credentials
    (o : rest_outcome) (ls : localStorage) :
  logout o ls = logout Resolved ls
  ∧ stored_token (logout o ls).2 = None
  ∧ (∀ c : request_config, requestInterceptor (logout o ls).2 c = c)
  ∧ match ls with
    | Items m =>
        ∃ m', logout o ls = (None, Items m')
          ∧ m' !! "authToken" = None ∧ m' !! "authUser" = None
          ∧ ∀ k : string, k ≠ "authToken" → k ≠ "authUser" → m' !! k = m !! k
    | Unavailable message =>
        logout o ls = (Some (ThrownError message), ls)
    end.
Proof.
  assert (stored_token (logout o ls).2 = None) as H.
  { destruct ls as [message|m]; simpl; [done|].
    by rewrite lookup_delete_ne, lookup_delete_eq. }
  split; [done|]. split; [exact H|]. split.
  - intros c. by apply requestInterceptor_without_token.
  - destruct ls as [message|m]; simpl; [done|].
    eexists. split; [reflexivity|]. split; [|split].
    + by rewrite lookup_delete_ne, lookup_delete_eq.
    + by rewrite lookup_delete_eq.
    + intros k H1 H2. by rewrite !lookup_delete_ne.
Qed.

(** ** The signed-in user *)

Section SignedIn.

Import Shell.

Lemma settle_routes (user : anyjson) (at_ : location) :
  settle 2 user at_ =
    Some (if signed_in user
          then (match at_ with
                | AtLogin | AtUnknown => AtDashboard
                | _ => at_
                end, page_of at_)
          else (AtLogin, LoginPage)).
Proof.
  destruct at_; simpl; unfold ProtectedRoute;
    destruct (signed_in user) eqn:E; simpl; unfold ProtectedRoute;
    rewrite ?E; done.
Qed.

End SignedIn.

(** X5.  Whatever the location, rendering settles after at most one
    redirect.  Without a signed-in user it settles on the login page, so
    no dashboard, room or device-settings page is ever rendered; with
    one it settles on the page of the location, and on the dashboard for
    the login route and for unknown routes. *)
Theorem routes_guard_every_page
    (user : Shell.anyjson) (at_ : Shell.location) :
  ∃ (final : Shell.location) (el : Shell.element),
    landing user at_ = Some (final, el)
    ∧ (∀ to, el ≠ Shell.Navigate_to to)
    ∧ (if Shell.signed_in user
       then el = Shell.page_of at_ ∧ Shell.is_protected el = true
       else el = Shell.LoginPage ∧ final = Shell.AtLogin).
Proof.
  unfold landing. rewrite settle_routes.
  destruct (Shell.signed_in user); eexists _, _; (split; [reflexivity|]).
  - split; [by destruct at_|]. by destruct at_.
  - done.
Qed.

(** X6.  A page load after a login finds the user the login returned:
    when the response carried a user (or, for want of one, a profile)
    and parsing undoes [JSON.stringify] on it, the initial [user] state
    is that object, the same one [handleAuthSuccess] had set, and the
    storage is not touched by the initialiser. *)
Theorem reload_after_login_finds_the_user
    (JSON_stringify : gmap string scalar → string)
    (JSON_parse : string → option Shell.anyjson)
    (data : auth_data) (u : gmap string scalar)
    (m : gmap string string) (a : Shell.app) :
  login_user data = Some u →
  JSON_stringify u ≠ "" →
  JSON_parse (JSON_stringify u) = Some (Shell.AObject u) →
  ∃ (c : credentials) (ls : localStorage),
    login JSON_stringify (PostResolved data) (Items m) = (AuthResolved c, ls)
    ∧ Shell.user (Shell.handleAuthSuccess c a) = Shell.AObject u
    ∧ Shell.initialUser JSON_parse ls = Done (Shell.AObject u, ls).
Proof.
  intros Hu Hne Hparse. unfold login. fold (login_user data). rewrite Hu.
  destruct (store_credentials_readable JSON_stringify
              (first_truthy (data_token data) (data_key data)) (Some u) m)
    as (m' & E & _ & Huser).
  rewrite E. eexists _, _. split; [reflexivity|]. split; [done|].
  unfold Shell.initialUser. simpl. rewrite Huser. simpl.
  rewrite bool_decide_false by done. simpl. by rewrite Hparse.
Qed.

Lemma reload_after_login_witness :
  let u : gmap string scalar := {[ "username" := SStr "ada" ]} in
  let stringify : gmap string scalar → string := λ _, "ada" in
  let parse : string → option Shell.anyjson := λ _, Some (Shell.AObject u) in
  let data := {| data_token := Some "t0k3n"; data_key := None;
                 data_user := Some u; data_profile := None |} in
  let a := {| Shell.user := Shell.null; Shell.at_route := Shell.AtLogin |} in
  login_user data = Some u
  ∧ stringify u ≠ ""
  ∧ parse (stringify u) = Some (Shell.AObject u)
  ∧ ∃ (c : credentials) (ls : localStorage),
      login stringify (PostResolved data) (Items ∅) = (AuthResolved c, ls)
      ∧ Shell.user (Shell.handleAuthSuccess c a) = Shell.AObject u
      ∧ Shell.initialUser parse ls = Done (Shell.AObject u, ls).
Proof.
  intros u stringify parse data a.
  assert (login_user data = Some u) as H1 by reflexivity.
  assert (stringify u ≠ "") as H2 by discriminate.
  assert (parse (stringify u) = Some (Shell.AObject u)) as H3 by reflexivity.
  split; [exact H1|]. split; [exact H2|]. split; [exact H3|].
  exact (reload_after_login_finds_the_user stringify parse data u ∅ a H1 H2 H3).
Defined.

(** X7.  When the stored [authUser] does not parse, the application
    starts signed out and both [authUser] and [authToken] are removed
    (other keys are kept), so that requests carry no token and every
    route leads to the login page. *)
Theorem corrupt_stored_user_signs_out
    (JSON_parse : string → option Shell.anyjson)
    (m : gmap string string) (raw : string) :
  m !! "authUser" = Some raw →
  raw ≠ "" →
  JSON_parse raw = None →
  ∃ m',
    Shell.initialUser JSON_parse (Items m) = Done (Shell.null, Items m')
    ∧ m' !! "authUser" = None ∧ m' !! "authToken" = None
    ∧ (∀ k : string, k ≠ "authToken" → k ≠ "authUser" → m' !! k = m !! k)
    ∧ (∀ c : request_config, requestInterceptor (Items m') c = c)
    ∧ ∀ at_ : Shell.location,
        landing Shell.null at_ = Some (Shell.AtLogin, Shell.LoginPage).
Proof.
  intros Hraw Hne Hparse. unfold Shell.initialUser. simpl.
  rewrite Hraw. simpl. rewrite bool_decide_false by done. simpl.
  rewrite Hparse. eexists. split; [reflexivity|].
  assert (delete "authToken" (delete "authUser" m) !! "authToken" = None)
    as Htok by (by rewrite lookup_delete_eq).
  split; [by rewrite lookup_delete_ne, lookup_delete_eq|].
  split; [exact Htok|].
  split; [intros k H1 H2; by rewrite !lookup_delete_ne|].
  split.
  - intros c. apply requestInterceptor_without_token. simpl. by rewrite Htok.
  - intros at_. unfold landing. by rewrite settle_routes.
Qed.

Lemma corrupt_stored_user_witness :
  let m : gmap string string :=
    {[ "authUser" := "{oops"; "authToken" := "t0k3n"; "theme" := "dark" ]} in
  let parse : string → option Shell.anyjson := λ _, None in
  m !! "authUser" = Some "{oops"
  ∧ ∃ m',
      Shell.initialUser parse (Items m) = Done (Shell.null, Items m')
      ∧ m' !! "authUser" = None ∧ m' !! "authToken" = None
      ∧ (∀ k : string, k ≠ "authToken" → k ≠ "authUser" → m' !! k = m !! k)
      ∧ (∀ c : request_config, requestInterceptor (Items m') c = c)
      ∧ ∀ at_ : Shell.location,
          landing Shell.null at_ = Some (Shell.AtLogin, Shell.LoginPage).
Proof.
  intros m parse.
  assert (m !! "authUser" = Some "{oops") as H1 by (vm_compute; reflexivity).
  assert ("{oops" ≠ "") as H2 by discriminate.
  split; [exact H1|].
  exact (corrupt_stored_user_signs_out parse m "{oops" H1 H2 eq_refl).
Defined.

(** X8.  [handleLogout] always ends signed out on the login route: the
    user is [null] whatever the server answered and even when the
    storage throws (then a warning is logged); on a readable storage the
    credentials are gone and no warning is logged.  Afterwards every
    route leads to the login page. *)
Theorem handleLogout_always_signs_out
    (o : rest_outcome) (ls : localStorage) (a : Shell.app) :
  let result := Shell.handleLogout o ls a in
  Shell.user result.1.1 = Shell.null
  ∧ Shell.at_route result.1.1 = Shell.AtLogin
  ∧ stored_token result.1.2 = None
  ∧ result.2 = (if ls is Unavailable _ then true else false)
  ∧ ∀ at_ : Shell.location,
      landing (Shell.user result.1.1) at_
        = Some (Shell.AtLogin, Shell.LoginPage).
Proof.
  intros result. subst result. unfold Shell.handleLogout.
  destruct ls as [message|m]; simpl.
  - repeat split; try done. intros at_. unfold landing. by rewrite settle_routes.
  - rewrite lookup_delete_ne, lookup_delete_eq by done.
    repeat split; try done. intros at_. unfold landing. by rewrite settle_routes.
Qed.

(** ** Signing in *)


(** X10.  Behind the response interceptor the login page never shows
    what the server said.  A failed POST reaches the page as the
    interceptor's rejection, which has no [response] property: with no
    response from the server the page shows the interceptor's own
    message, and with any response, whatever its status and body, it
    shows the fixed fallback text.  [onAuthSuccess] is not called and
    the storage is left alone. *)
Theorem failed_submit_never_shows_the_server_detail
    (JSON_stringify : gmap string scalar → string)
    (API_BASE_URL : string) (error : axios_error)
    (ls : localStorage) (st : Login.login_page) :
  ∃ r : rejection,
    onResponseError API_BASE_URL error = Rejected r
    ∧ let result :=
        Login.handleSubmit JSON_stringify (PostRejected r) ls st in
      Login.shown_error result.1.1 =
        (if ax_response error is Some _
         then "Something went wrong. Please check your input."
         else "Unable to reach the server.")
      ∧ Login.busy result.1.1 = false
      ∧ result.1.2 = ls
      ∧ result.2 = None.
Proof.
  unfold onResponseError, Login.handleSubmit, login, register.
  destruct (ax_response error) as [response|];
    eexists; (split; [reflexivity|]); by case_bool_decide.
Qed.

(** ** Loading a room *)

Section Loading.

Lemma load_failed_run (isRefresh : bool) (err : rejection) st :
  state_after (Settings.load isRefresh (LoadFailed err)) st
    = with_busy false false
        (with_error (if unauthorized err then of_string ""
                     else detail_or err "Failed to load room data.") st)
  ∧ trace_of (Settings.load isRefresh (LoadFailed err)) st
    = [Call getRooms; Call (getRoomDevices (numericRoomId st));
       ConsoleError "Room load error:"]
      ++ (if unauthorized err then [Navigate RLogin] else []).
Proof.
  unfold Settings.load, load_begin, load_end, state_after, trace_of,
    unauthorized, detail_or.
  destruct isRefresh; simpl;
    destruct (bool_decide (rej_status err = Some 401%Z)
              || bool_decide (rej_status err = Some 403%Z)); simpl;
    try done; unfold or_else; simpl;
    destruct (truthy (detail_of err)); done.
Qed.

Lemma load_end_loaded (rooms : option (list (gmap string scalar)))
    (fetched : option (list device)) st :
  let found := found_room (numericRoomId st) rooms in
  let after := state_after (load_end (Loaded rooms fetched)) st in
  devices after = default [] fetched
  ∧ room after = found
  ∧ loading after = false ∧ refreshing after = false
  ∧ error after = (if found is Some _ then error st
                   else of_string "Room not found.")
  ∧ Settings.room_form after
    = (if found is Some r then Settings.synced_form r
       else Settings.room_form st)
  ∧ new_device_form after = new_device_form st
  ∧ numericRoomId after = numericRoomId st
  ∧ trace_of (load_end (Loaded rooms fetched)) st = [].
Proof.
  unfold found_room, load_end, state_after, trace_of, mbind, M_bind, read.
  simpl.
  match goal with |- context [find ?f ?l] => destruct (find f l) end; done.
Qed.

End Loading.

(** X11.  A load that fails changes nothing that is shown except the
    error and the busy flags: the device list, the room and both forms
    stay as they were, and loading and refreshing end up false.  On a
    401 or 403 it navigates to the login route and shows no error;
    otherwise it shows the server's [detail], or a fixed text, and does
    not navigate.  It always makes the same two GET requests. *)
Theorem failed_load_keeps_what_is_shown
    (isRefresh : bool) (err : rejection) (st : page) :
  let run := Settings.load isRefresh (LoadFailed err) in
  let after := state_after run st in
  devices after = devices st
  ∧ room after = room st
  ∧ Settings.room_form after = Settings.room_form st
  ∧ new_device_form after = new_device_form st
  ∧ loading after = false ∧ refreshing after = false
  ∧ error after = (if unauthorized err then of_string ""
                   else detail_or err "Failed to load room data.")
  ∧ Settings.navigations (trace_of run st)
    = (if unauthorized err then [RLogin] else [])
  ∧ calls (trace_of run st)
    = [getRooms; getRoomDevices (numericRoomId st)].
Proof.
  intros run after. subst run after.
  destruct (load_failed_run isRefresh err st) as [Hs Ht].
  rewrite Hs, Ht. repeat split; by destruct (unauthorized err).
Qed.

(** X12.  A load that succeeds puts the fetched devices in place of the
    device list (an empty list for a missing body) and the room with the
    page's id in place of the room.  When there is no such room the room
    becomes [null] and the error reads that the room was not found, but
    the devices are replaced all the same and the settings form is left
    alone; when there is one, no error is shown and the settings form is
    filled from it, which drops a background file that was chosen but
    not saved.  Both busy flags end up false. *)
Theorem successful_load_replaces_devices_and_room
    (isRefresh : bool)
    (rooms : option (list (gmap string scalar)))
    (fetched : option (list device)) (st : page) :
  let run := Settings.load isRefresh (Loaded rooms fetched) in
  let after := state_after run st in
  let found := found_room (numericRoomId st) rooms in
  devices after = default [] fetched
  ∧ room after = found
  ∧ loading after = false ∧ refreshing after = false
  ∧ error after = (if found is Some _ then of_string ""
                   else of_string "Room not found.")
  ∧ Settings.room_form after
    = (if found is Some r then Settings.synced_form r
       else Settings.room_form st)
  ∧ (if found is Some _ then backgroundFile after = None else True)
  ∧ new_device_form after = new_device_form st.
Proof.
  intros run after found. subst run after found.
  unfold Settings.load. rewrite state_after_bind.
  pose proof (load_end_loaded rooms fetched
                (state_after (load_begin isRefresh) st)) as H.
  cbv zeta in H.
  assert (numericRoomId (state_after (load_begin isRefresh) st)
          = numericRoomId st) as Hid by (by destruct isRefresh).
  assert (error (state_after (load_begin isRefresh) st) = of_string "")
    as Herr by (by destruct isRefresh).
  assert (Settings.room_form (state_after (load_begin isRefresh) st)
          = Settings.room_form st) as Hform by (by destruct isRefresh).
  assert (new_device_form (state_after (load_begin isRefresh) st)
          = new_device_form st) as Hnew by (by destruct isRefresh).
  rewrite Hid, Herr, Hform, Hnew in H.
  destruct H as (H1 & H2 & H3 & H4 & H5 & H6 & H7 & _).
  repeat split; try done.
  destruct (found_room (numericRoomId st) rooms) as [r|]; [|done].
  unfold Settings.room_form, Settings.synced_form in H6. congruence.
Qed.

(** ** A toggle that the server accepts *)

Section ToggleAccepted.

Variable JSON_parse : string → option json_doc.

Lemma handleToggleDevice_begin_digital (dev : device) st :
  isDigital dev = true →
  handleToggleDevice_begin dev st =
    (true, with_devices (flipped dev) (with_error (of_string "") st),
     [Call (toggle_command dev)]).
Proof.
  intros H. unfold handleToggleDevice_begin, toggle_command, flipped.
  unfold mbind, M_bind. simpl. rewrite H. simpl.
  by destruct (truthy (dev !! "is_on")).
Qed.

Lemma deliver_keeps (messages : list string) st :
  let after := state_after (deliver JSON_parse messages) st in
  numericRoomId after = numericRoomId st
  ∧ error after = error st
  ∧ room after = room st
  ∧ Settings.room_form after = Settings.room_form st
  ∧ new_device_form after = new_device_form st
  ∧ loading after = loading st ∧ refreshing after = refreshing st.
Proof.
  destruct (deliver_state JSON_parse messages st) as [l Hl].
  cbv zeta. by rewrite Hl.
Qed.

(** The reload when its two requests succeed. *)
Lemma reload_loaded (s : schedule)
    (rooms : option (list (gmap string scalar)))
    (fetched : option (list device)) st :
  reload_outcome s = Loaded rooms fetched →
  let after := state_after (reload JSON_parse s) st in
  let found := found_room (numericRoomId st) rooms in
  devices after = default [] fetched
  ∧ room after = found
  ∧ error after = (if found is Some _ then of_string ""
                   else of_string "Room not found.")
  ∧ Settings.room_form after
    = (if found is Some r then Settings.synced_form r
       else Settings.room_form st)
  ∧ new_device_form after = new_device_form st.
Proof.
  intros Ho. cbv zeta. unfold reload. rewrite !state_after_bind, Ho.
  set (st1 := state_after (load_begin true) st).
  set (st2 := state_after (deliver JSON_parse (during_reload s)) st1).
  pose proof (load_end_loaded rooms fetched st2) as H. cbv zeta in H.
  pose proof (deliver_keeps (during_reload s) st1) as K. cbv zeta in K.
  fold st2 in K. destruct K as (K1 & K2 & K3 & K4 & K5 & _).
  assert (numericRoomId st1 = numericRoomId st) as B1 by done.
  assert (error st1 = of_string "") as B2 by done.
  assert (Settings.room_form st1 = Settings.room_form st) as B3 by done.
  assert (new_device_form st1 = new_device_form st) as B4 by done.
  rewrite K1, K2, K4, K5, B1, B2, B3, B4 in H.
  destruct H as (H1 & H2 & H3 & H4 & H5 & H6 & H7 & _).
  done.
Qed.

(** The state in which an accepted toggle starts its reload. *)
Lemma handleToggleDevice_accepted (dev : device) (s : schedule) st :
  isDigital dev = true →
  command_outcome s = Resolved →
  ∃ st1,
    state_after (handleToggleDevice JSON_parse dev s) st
      = state_after (reload JSON_parse s) st1
    ∧ trace_of (handleToggleDevice JSON_parse dev s) st
      = Call (toggle_command dev)
        :: trace_of (deliver JSON_parse (during_command s))
             (with_devices (flipped dev) (with_error (of_string "") st))
        ++ trace_of (reload JSON_parse s) st1
    ∧ numericRoomId st1 = numericRoomId st
    ∧ Settings.room_form st1 = Settings.room_form st
    ∧ new_device_form st1 = new_device_form st
    ∧ (during_command s = [] →
       st1 = with_devices (flipped dev) (with_error (of_string "") st)).
Proof.
  intros Hd Ho.
  pose proof (handleToggleDevice_begin_digital dev st Hd) as Hb.
  assert (result_of (handleToggleDevice_begin dev) st = true) as Hr
    by (unfold result_of; by rewrite Hb).
  assert (state_after (handleToggleDevice_begin dev) st
          = with_devices (flipped dev) (with_error (of_string "") st)) as Hs
    by (unfold state_after; by rewrite Hb).
  assert (trace_of (handleToggleDevice_begin dev) st
          = [Call (toggle_command dev)]) as Ht
    by (unfold trace_of; by rewrite Hb).
  clear Hb. unfold handleToggleDevice.
  rewrite state_after_bind, trace_of_bind, Hr, Hs, Ht, Ho.
  rewrite state_after_bind, trace_of_bind.
  set (st0 := with_devices (flipped dev) (with_error (of_string "") st)).
  exists (state_after (deliver JSON_parse (during_command s)) st0).
  pose proof (deliver_keeps (during_command s) st0) as K. cbv zeta in K.
  destruct K as (K1 & _ & _ & K4 & K5 & _).
  split; [done|]. split; [done|]. split; [done|]. split; [done|].
  split; [done|]. by intros ->.
Qed.

End ToggleAccepted.

(** X13.  When the command of a toggle is accepted, the handler makes
    exactly three requests: the command, with state [on] if the device
    given was off and [off] if it was on, and the two GETs of the
    reload.  If the reload succeeds the device list is what it fetched,
    whatever the optimistic flip and whatever the live channel delivered
    in between.  If the reload fails, and nothing arrived meanwhile, the
    optimistic flip stays in the list (the revert is not run), and the
    error shown is the loader's. *)
Theorem accepted_toggle_takes_the_list_from_the_reload
    (JSON_parse : string → option json_doc)
    (dev : device) (s : schedule) (st : page) :
  isDigital dev = true →
  command_outcome s = Resolved →
  let run := handleToggleDevice JSON_parse dev s in
  let after := state_after run st in
  calls (trace_of run st)
    = [toggle_command dev; getRooms; getRoomDevices (numericRoomId st)]
  ∧ match reload_outcome s with
    | Loaded rooms fetched => devices after = default [] fetched
    | LoadFailed err =>
        during_command s = [] → during_reload s = [] →
        devices after = flipped dev (devices st)
        ∧ error after = (if unauthorized err then of_string ""
                         else detail_or err "Failed to load room data.")
    end.
Proof.
  intros Hd Ho run after. subst run after.
  destruct (handleToggleDevice_accepted JSON_parse dev s st Hd Ho)
    as (st1 & Hs & Ht & Hid & _ & _ & Hquiet).
  rewrite Hs, Ht. split.
  - change (Call (toggle_command dev) :: ?l) with ([Call (toggle_command dev)] ++ l).
    rewrite !calls_app, deliver_calls.
    destruct (reload_run JSON_parse s st1) as [_ Hc]. by rewrite Hc, Hid.
  - destruct (reload_outcome s) as [rooms fetched|err] eqn:Hr.
    + by destruct (reload_loaded JSON_parse s rooms fetched st1 Hr) as [H _].
    + intros Hq1 Hq2. rewrite (Hquiet Hq1).
      unfold reload. rewrite Hq2, Hr.
      pose proof (load_failed_run true err
                    (with_devices (flipped dev)
                       (with_error (of_string "") st))) as [L _].
      unfold Settings.load in L. simpl deliver.
      rewrite !state_after_bind in *.
      change (state_after skip ?x) with x. rewrite L. done.
Qed.

Lemma accepted_toggle_witness :
  let s := Scenario.quiet Resolved [Scenario.thermometer] in
  let run := handleToggleDevice (Scenario.always JNull) Scenario.lamp s in
  let st := Scenario.mounted 1 [Scenario.lamp] in
  isDigital Scenario.lamp = true
  ∧ command_outcome s = Resolved
  ∧ calls (trace_of run st)
      = [toggle_command Scenario.lamp; getRooms;
         getRoomDevices (numericRoomId st)]
  ∧ devices (state_after run st) = [Scenario.thermometer].
Proof.
  intros s run st.
  assert (isDigital Scenario.lamp = true) as H1 by (vm_compute; reflexivity).
  assert (command_outcome s = Resolved) as H2 by reflexivity.
  split; [exact H1|]. split; [exact H2|].
  exact (accepted_toggle_takes_the_list_from_the_reload
           (Scenario.always JNull) Scenario.lamp s st H1 H2).
Defined.

(** ** Reloads and the room settings form *)

Section ReloadAndSettings.

Variable JSON_parse : string → option json_doc.

Lemma handleCreateDevice_accepted (s : schedule) st :
  newDeviceName st ≠ "" →
  command_outcome s = Resolved →
  ∃ st1,
    state_after (handleCreateDevice JSON_parse s) st
      = state_after (reload JSON_parse s) st1
    ∧ numericRoomId st1 = numericRoomId st
    ∧ Settings.room_form st1 = Settings.room_form st.
Proof.
  intros H Ho.
  pose proof (handleCreateDevice_begin_named st H) as Hb.
  assert (result_of handleCreateDevice_begin st = true) as Hr
    by (unfold result_of; by rewrite Hb).
  assert (state_after handleCreateDevice_begin st
            = with_error (of_string "") st) as Hs
    by (unfold state_after; by rewrite Hb).
  clear Hb. unfold handleCreateDevice.
  rewrite state_after_bind, Hr, Hs, Ho.
  rewrite !state_after_bind.
  destruct (deliver_state JSON_parse (during_command s)
              (with_error (of_string "") st)) as [l Hl].
  rewrite Hl. eexists. split; [reflexivity|]. done.
Qed.

End ReloadAndSettings.

(** X14.  The reload that follows an accepted toggle or a created
    device overwrites the room settings form: when the reload finds the
    room, the name, slug and background of the form are the server's
    again and no background file is pending, whatever had been typed or
    chosen and not yet saved. *)
Theorem reload_overwrites_unsaved_room_settings
    (JSON_parse : string → option json_doc)
    (dev : device) (s : schedule) (st : page)
    (rooms : option (list (gmap string scalar)))
    (fetched : option (list device))
    (r : gmap string scalar) :
  command_outcome s = Resolved →
  reload_outcome s = Loaded rooms fetched →
  found_room (numericRoomId st) rooms = Some r →
  (isDigital dev = true →
   Settings.room_form (state_after (handleToggleDevice JSON_parse dev s) st)
     = Settings.synced_form r
   ∧ backgroundFile (state_after (handleToggleDevice JSON_parse dev s) st)
     = None)
  ∧ (newDeviceName st ≠ "" →
     Settings.room_form (state_after (handleCreateDevice JSON_parse s) st)
       = Settings.synced_form r
     ∧ backgroundFile (state_after (handleCreateDevice JSON_parse s) st)
       = None).
Proof.
  intros Ho Hl Hfound.
  assert (∀ st1, numericRoomId st1 = numericRoomId st →
            Settings.room_form (state_after (reload JSON_parse s) st1)
              = Settings.synced_form r
            ∧ backgroundFile (state_after (reload JSON_parse s) st1) = None)
    as Hreload.
  { intros st1 Hid.
    destruct (reload_loaded JSON_parse s rooms fetched st1 Hl)
      as (_ & _ & _ & Hform & _).
    rewrite Hid, Hfound in Hform. split; [exact Hform|].
    unfold Settings.room_form, Settings.synced_form in Hform. congruence. }
  split.
  - intros Hd.
    destruct (handleToggleDevice_accepted JSON_parse dev s st Hd Ho)
      as (st1 & Hs & _ & Hid & _).
    rewrite Hs. by apply Hreload.
  - intros Hn.
    destruct (handleCreateDevice_accepted JSON_parse s st Hn Ho)
      as (st1 & Hs & Hid & _).
    rewrite Hs. by apply Hreload.
Qed.

Lemma reload_overwrites_witness :
  let room1 : gmap string scalar :=
    {[ "id" := Scenario.number 1; "name" := SStr "Kitchen" ]} in
  let s := {| during_command := []; command_outcome := Resolved;
              during_reload := [];
              reload_outcome := Loaded (Some [room1]) (Some []) |} in
  let st :=
    state_after (Settings.setRoomName "Kitchn" ;;
                 Settings.handleBackgroundFileChange (Some "new.png"))
      (Scenario.mounted 1 [Scenario.lamp]) in
  backgroundFile st = Some "new.png"
  ∧ command_outcome s = Resolved
  ∧ found_room (numericRoomId st) (Some [room1]) = Some room1
  ∧ (isDigital Scenario.lamp = true →
     Settings.room_form
       (state_after (handleToggleDevice (Scenario.always JNull)
                       Scenario.lamp s) st)
       = Settings.synced_form room1
     ∧ backgroundFile
         (state_after (handleToggleDevice (Scenario.always JNull)
                         Scenario.lamp s) st) = None).
Proof.
  intros room1 s st.
  assert (command_outcome s = Resolved) as H1 by reflexivity.
  assert (reload_outcome s = Loaded (Some [room1]) (Some [])) as H2
    by reflexivity.
  assert (found_room (numericRoomId st) (Some [room1]) = Some room1) as H3
    by (vm_compute; reflexivity).
  split; [reflexivity|]. split; [exact H1|]. split; [exact H3|].
  exact (proj1 (reload_overwrites_unsaved_room_settings
                  (Scenario.always JNull) Scenario.lamp s st
                  (Some [room1]) (Some []) room1 H1 H2 H3)).
Defined.

(** ** Saving the room settings *)

Section Saving.

Import Settings.

Lemma handleSaveSettings_begin_run (r : gmap string scalar) st :
  room st = Some r →
  handleSaveSettings_begin st =
    (Some {| call_id := r !! "id";
             call_payload :=
               match backgroundFile st with
               | Some f =>
                   FormData [("name", FieldText (roomName st));
                             ("slug", FieldText (roomSlug st));
                             ("background_image", FieldFile f)]
               | None => json_patch (roomName st) (roomSlug st)
               end |},
     with_error (of_string "") st, []).
Proof.
  intros H. unfold handleSaveSettings_begin, mbind, M_bind, read.
  rewrite H. simpl. by destruct (backgroundFile st).
Qed.

Lemma handleSaveSettings_run (o : save_outcome) (r : gmap string scalar) st :
  room st = Some r →
  result_of (handleSaveSettings o) st
    = (handleSaveSettings_begin st).1.1
  ∧ state_after (handleSaveSettings o) st
    = state_after (handleSaveSettings_end o) (with_error (of_string "") st).
Proof.
  intros H. unfold handleSaveSettings, result_of, state_after.
  unfold mbind at 1 3, M_bind at 1 3.
  rewrite (handleSaveSettings_begin_run r st H). cbn [fst snd].
  unfold mbind, M_bind.
  by destruct (handleSaveSettings_end o (with_error (of_string "") st))
    as [[[] st2] out2].
Qed.

End Saving.

(** X15.  Saving the room settings does nothing while no room is
    loaded.  Otherwise it sends one PATCH for the room's id: a multipart
    body with name, slug and the file when a background file is pending,
    a JSON body with name and slug only when none is.  After a
    successful save the room and the form are the server's and no file
    is pending, so saving again sends the JSON body with the server's
    name and slug; after a failed save the form and the pending file are
    as they were, so saving again sends the same body as before. *)
Theorem save_settings_sends_the_file_once
    (o again : Settings.save_outcome) (st : page) :
  let run := Settings.handleSaveSettings o in
  let after := state_after run st in
  match room st with
  | None =>
      after = st ∧ trace_of run st = [] ∧ result_of run st = None
  | Some r =>
      result_of run st =
        Some {| Settings.call_id := r !! "id";
                Settings.call_payload :=
                  match backgroundFile st with
                  | Some f =>
                      Settings.FormData
                        [("name", Settings.FieldText (roomName st));
                         ("slug", Settings.FieldText (roomSlug st));
                         ("background_image", Settings.FieldFile f)]
                  | None => json_patch (roomName st) (roomSlug st)
                  end |}
      ∧ match o with
        | Settings.Saved updated =>
            room after = Some updated
            ∧ Settings.room_form after = Settings.synced_form updated
            ∧ result_of (Settings.handleSaveSettings again) after =
                Some {| Settings.call_id := updated !! "id";
                        Settings.call_payload :=
                          json_patch
                            (or_else (updated !! "name") (of_string ""))
                            (or_else (updated !! "slug") (of_string "")) |}
        | Settings.SaveFailed err =>
            room after = room st
            ∧ Settings.room_form after = Settings.room_form st
            ∧ error after = detail_or err "Could not save room settings."
            ∧ result_of (Settings.handleSaveSettings again) after
              = result_of run st
        end
  end.
Proof.
  intros run after. subst run after.
  destruct (room st) as [r|] eqn:Hroom.
  - destruct (handleSaveSettings_run o r st Hroom) as [Hres Hst].
    rewrite Hres, Hst, (handleSaveSettings_begin_run r st Hroom).
    split; [done|].
    destruct o as [updated|err].
    + split; [done|]. split; [done|].
      set (st1 := state_after (Settings.handleSaveSettings_end
                                 (Settings.Saved updated))
                    (with_error (of_string "") st)).
      destruct (handleSaveSettings_run again updated st1 eq_refl) as [H1 _].
      rewrite H1, (handleSaveSettings_begin_run updated st1 eq_refl). done.
    + split; [done|]. split; [done|].
      split.
      { unfold detail_or. simpl. unfold or_else. simpl.
        by destruct (truthy (detail_of err)). }
      set (st1 := state_after (Settings.handleSaveSettings_end
                                 (Settings.SaveFailed err))
                    (with_error (of_string "") st)).
      destruct (handleSaveSettings_run again r st1 Hroom) as [H1 _].
      rewrite H1, (handleSaveSettings_begin_run r st1 Hroom). done.
  - unfold Settings.handleSaveSettings, Settings.handleSaveSettings_begin,
      state_after, trace_of, result_of, mbind, M_bind, read.
    by rewrite Hroom.
Qed.

(** X16.  Cancelling the file dialog undoes the choice of a background
    file: after choosing a file, with or without its preview having
    been read, a change event without a file leaves no file pending and
    the preview on the saved background, exactly as if no file had been
    chosen.  None of these handlers changes the name, the slug, the
    saved background, the room or the devices.  A preview that is read
    only after the cancel is shown nonetheless, with no file pending. *)
Theorem cancelled_file_choice_is_undone
    (file dataUrl : string) (st : page) :
  let choose := Settings.handleBackgroundFileChange (Some file) in
  let cancel := Settings.handleBackgroundFileChange None in
  let onload := Settings.reader_onload dataUrl in
  state_after (choose ;; onload ;; cancel) st = state_after cancel st
  ∧ state_after (choose ;; cancel) st = state_after cancel st
  ∧ backgroundFile (state_after cancel st) = None
  ∧ backgroundPreview (state_after cancel st)
    = or_else (roomBackgroundUrl st) (of_string "")
  ∧ Settings.room_form (state_after (choose ;; cancel ;; onload) st)
    = (roomName st, roomSlug st, roomBackgroundUrl st, None,
       of_string dataUrl)
  ∧ ∀ m, m ∈ [choose; cancel; onload] →
      roomName (state_after m st) = roomName st
      ∧ roomSlug (state_after m st) = roomSlug st
      ∧ roomBackgroundUrl (state_after m st) = roomBackgroundUrl st
      ∧ room (state_after m st) = room st
      ∧ devices (state_after m st) = devices st.
Proof.
  intros choose cancel onload. subst choose cancel onload.
  repeat split; try done.
  all: apply elem_of_cons in H as [->|H]; [done|];
       apply elem_of_cons in H as [->|H]; [done|];
       apply list_elem_of_singleton in H as ->; done.
Qed.

(** ** What the live channel can and cannot do *)

Section ChannelFrame.

Variable JSON_parse : string → option json_doc.

Lemma deliver_run (messages : list string) st :
  state_after (deliver JSON_parse messages) st
    = with_devices (received_all JSON_parse messages) st
  ∧ forallb is_console (trace_of (deliver JSON_parse messages) st) = true.
Proof.
  revert st. induction messages as [|m messages IH]; intros st; simpl.
  - split; [by destruct st | done].
  - rewrite state_after_bind, trace_of_bind, onmessage_state, onmessage_trace.
    destruct (IH (with_devices (received (JSON_parse m)) st)) as [Hs Ht].
    rewrite Hs, forallb_app, Ht. split; [done|].
    by destruct (JSON_parse m) as [[|?]|].
Qed.

Lemma received_all_app (l1 l2 : list string) (store : list device) :
  received_all JSON_parse (l1 ++ l2) store
    = received_all JSON_parse l2 (received_all JSON_parse l1 store).
Proof. unfold received_all. apply foldl_app. Qed.

End ChannelFrame.

(** X17.  Whatever arrives on the live channel, in whatever number and
    order, changes the device list and nothing else in the page, and
    does nothing outside it besides writing to the console: no REST
    call and no navigation.  Once a snapshot has arrived, nothing that
    arrived before it matters: the device list is the snapshot. *)
Theorem live_messages_only_change_the_devices
    (JSON_parse : string → option json_doc)
    (messages : list string) (st : page) :
  let run := deliver JSON_parse messages in
  state_after run st = with_devices (received_all JSON_parse messages) st
  ∧ calls (trace_of run st) = []
  ∧ Settings.navigations (trace_of run st) = []
  ∧ forallb is_console (trace_of run st) = true
  ∧ ∀ (s : string) (t : jsval) (dev : option device) (snapshot : list device),
      JSON_parse s = Some (JData {| data_type := t; data_device := dev;
                                    data_devices := Some snapshot |}) →
      strict_eq t (of_string "devices_snapshot") = true →
      devices (state_after (deliver JSON_parse (messages ++ [s])) st)
        = snapshot.
Proof.
  intros run. subst run.
  destruct (deliver_run JSON_parse messages st) as [Hs Ht].
  split; [exact Hs|].
  assert (∀ out, forallb is_console out = true →
            calls out = [] ∧ Settings.navigations out = []) as Hquiet.
  { induction out as [|e out IH]; simpl; [done|].
    intros H. apply andb_true_iff in H as [He Hout].
    destruct (IH Hout) as [H1 H2].
    unfold calls, Settings.navigations in *. simpl.
    destruct e; simpl in *; try done; by rewrite ?H1, ?H2. }
  destruct (Hquiet _ Ht) as [H1 H2].
  split; [exact H1|]. split; [exact H2|]. split; [exact Ht|].
  intros s t dev snapshot Hparse Htype.
  destruct (deliver_run JSON_parse (messages ++ [s]) st) as [Hs' _].
  rewrite Hs'. cbn [devices with_devices].
  rewrite received_all_app. simpl. unfold received.
  rewrite Hparse. simpl.
  destruct (strict_eq t (of_string "device_update")) eqn:Hu.
  - by rewrite (update_is_not_snapshot _ Hu) in Htype.
  - by rewrite Htype.
Qed.

(** ** More on upserts *)

Section UpsertShape.

Implicit Types (d u : device) (l : list device).

Lemma spread_twice d u : spread (spread d u) u = spread d u.
Proof.
  rewrite !spread_unfold. simpl. f_equal. apply map_eq. intros k.
  rewrite !lookup_union. by destruct (own u !! k), (own d !! k).
Qed.

(** Merging an object into itself gives the same object; merging
    anything else into itself gives the object of its properties. *)
Lemma spread_self (o : gmap string scalar) : spread (Obj o) (Obj o) = Obj o.
Proof.
  rewrite spread_unfold. simpl. f_equal. apply map_eq. intros k.
  rewrite lookup_union. by destruct (o !! k).
Qed.

Lemma applyDeviceUpdate_ids l u :
  map id_of (applyDeviceUpdate l u) =
    map id_of l
    ++ (if existsb (λ d, strict_eq (d !! "id") (u !! "id")) l
        then [] else [id_of u]).
Proof.
  unfold applyDeviceUpdate. destruct (existsb _ l); simpl.
  - rewrite app_nil_r, map_map. apply map_ext. intros d.
    destruct (strict_eq (d !! "id") (u !! "id")) eqn:E; [|done].
    by apply spread_id_of.
  - by rewrite map_app.
Qed.

Lemma applyDeviceUpdate_other l u (k : nat) d :
  l !! k = Some d →
  strict_eq (d !! "id") (u !! "id") = false →
  applyDeviceUpdate l u !! k = Some d.
Proof.
  intros Hk Hd. unfold applyDeviceUpdate. destruct (existsb _ l); simpl.
  - change (map ?f l) with (f <$> l).
    rewrite list_lookup_fmap, Hk. simpl. by rewrite Hd.
  - by apply lookup_app_l_Some.
Qed.

End UpsertShape.

(** X18.  For a payload whose id is [===] to itself (any id but NaN; a
    missing id included), a further upsert of the same payload changes
    nothing once it has been applied twice; when the payload is an
    object, already the second upsert changes nothing.  (A payload that
    is not an object and is appended by the first upsert is replaced by
    the object of its properties by the second.) *)
Theorem upsert_twice_is_upsert_once (l : list device) (u : device) :
  strict_eq (u !! "id") (u !! "id") = true →
  let once := applyDeviceUpdate l u in
  let twice := applyDeviceUpdate once u in
  applyDeviceUpdate twice u = twice
  ∧ ∀ o : gmap string scalar, u = Obj o → twice = once.
Proof.
  intros Hu once twice. subst once twice.
  assert (∀ l', existsb (λ d, strict_eq (d !! "id") (u !! "id")) l' = true →
            applyDeviceUpdate (applyDeviceUpdate l' u) u
              = applyDeviceUpdate l' u) as Hknown.
  { intros l' E.
    rewrite (applyDeviceUpdate_at (applyDeviceUpdate l' u) u (u !! "id") Hu).
    rewrite (applyDeviceUpdate_at l' u (u !! "id") Hu), E.
    rewrite existsb_after_merge by done.
    rewrite map_map. apply map_ext. intros d.
    destruct (strict_eq (d !! "id") (u !! "id")) eqn:Hd.
    - rewrite spread_keeps_id by done. apply spread_twice.
    - by rewrite Hd. }
  assert (existsb (λ d, strict_eq (d !! "id") (u !! "id"))
            (applyDeviceUpdate l u) = true) as Hafter.
  { rewrite (applyDeviceUpdate_at l u (u !! "id") Hu).
    destruct (existsb (λ d, strict_eq (d !! "id") (u !! "id")) l) eqn:E.
    - by apply existsb_after_merge.
    - rewrite existsb_app. simpl. by rewrite Hu, orb_true_r. }
  split; [by apply Hknown|].
  intros o ->.
  destruct (existsb (λ d, strict_eq (d !! "id") (Obj o !! "id")) l) eqn:E;
    [by apply Hknown|].
  rewrite (applyDeviceUpdate_at (applyDeviceUpdate l (Obj o)) (Obj o)
             (Obj o !! "id") Hu), Hafter.
  rewrite (applyDeviceUpdate_at l (Obj o) (Obj o !! "id") Hu), E.
  rewrite map_app. cbn [map]. rewrite Hu, spread_self.
  by rewrite (map_absent_id _ _ _ E).
Qed.

Lemma upsert_twice_witness :
  let o : gmap string scalar :=
    {[ "id" := Scenario.number 9; "is_on" := SBool true ]} in
  strict_eq (Obj o !! "id") (Obj o !! "id") = true
  ∧ applyDeviceUpdate (applyDeviceUpdate [Scenario.lamp] (Obj o)) (Obj o)
    = applyDeviceUpdate [Scenario.lamp] (Obj o).
Proof.
  intros o.
  assert (strict_eq (Obj o !! "id") (Obj o !! "id") = true) as H
    by (vm_compute; reflexivity).
  split; [exact H|].
  exact (proj2 (upsert_twice_is_upsert_once [Scenario.lamp] (Obj o) H)
           o eq_refl).
Defined.

(** X19.  An upsert never removes or reorders records: the ids of the
    list stay in place, followed by the id of the payload when no record
    had it; the list grows by at most that one record; and every record
    with another id stays at its index unchanged. *)
Theorem upsert_keeps_the_order (l : list device) (u : device) :
  let known := existsb (λ d, strict_eq (d !! "id") (u !! "id")) l in
  map id_of (applyDeviceUpdate l u)
    = map id_of l ++ (if known then [] else [id_of u])
  ∧ length (applyDeviceUpdate l u)
    = (length l + (if known then 0 else 1))%nat
  ∧ ∀ (k : nat) (d : device),
      l !! k = Some d →
      strict_eq (d !! "id") (u !! "id") = false →
      applyDeviceUpdate l u !! k = Some d.
Proof.
  intros known. subst known. split; [apply applyDeviceUpdate_ids|].
  split; [|apply applyDeviceUpdate_other].
  unfold applyDeviceUpdate. destruct (existsb _ l); simpl.
  - rewrite length_map. lia.
  - by rewrite length_app.
Qed.

(** X20.  With nothing arriving on the live channel meanwhile, a toggle
    that the server rejects is a round trip on the device list: when
    the records with the device's id hold the boolean [is_on] the
    handler was given, the list ends up exactly as it was.  One request
    was made, and the error shown is the server's [detail] or the fixed
    text. *)
Theorem rejected_toggle_restores_the_list
    (JSON_parse : string → option json_doc)
    (dev : device) (err : rejection) (s : schedule) (st : page) :
  isDigital dev = true →
  during_command s = [] →
  command_outcome s = Failed err →
  Forall (λ d : device,
            strict_eq (d !! "id") (dev !! "id") = true →
            d !! "is_on" = Some (SBool (truthy (dev !! "is_on"))))
         (devices st) →
  let run := handleToggleDevice JSON_parse dev s in
  devices (state_after run st) = devices st
  ∧ calls (trace_of run st) = [toggle_command dev]
  ∧ error (state_after run st) = detail_or err "Could not toggle device.".
Proof.
  intros Hd Hq Hf Hstored run. subst run.
  split; [|split].
  - rewrite (toggle_failure_restores_when_quiet JSON_parse dev err s st Hd Hq Hf).
    induction Hstored as [|d l Hhead _ IH]; simpl; [done|].
    rewrite IH. f_equal.
    destruct (strict_eq (d !! "id") (dev !! "id")) eqn:E; [|done].
    destruct (named_field_object d "is_on" _ eq_refl (Hhead eq_refl))
      as [o ->].
    by apply device_insert_id, Hhead.
  - pose proof (handleToggleDevice_begin_digital dev st Hd) as Hb.
    unfold handleToggleDevice, trace_of, mbind, M_bind.
    rewrite Hb, Hq, Hf. simpl. done.
  - pose proof (handleToggleDevice_begin_digital dev st Hd) as Hb.
    unfold handleToggleDevice, state_after, mbind, M_bind.
    rewrite Hb, Hq, Hf. simpl. unfold detail_or, or_else. simpl.
    by destruct (truthy (detail_of err)).
Qed.

Lemma rejected_toggle_witness :
  let s := Scenario.quiet (Failed Scenario.server_down) [] in
  let st := Scenario.mounted 1 [Scenario.thermometer; Scenario.lamp] in
  let run := handleToggleDevice (Scenario.always JNull) Scenario.lamp s in
  isDigital Scenario.lamp = true
  ∧ devices (state_after run st) = devices st
  ∧ calls (trace_of run st) = [toggle_command Scenario.lamp]
  ∧ error (state_after run st)
    = detail_or Scenario.server_down "Could not toggle device.".
Proof.
  intros s st run.
  assert (isDigital Scenario.lamp = true) as H1 by (vm_compute; reflexivity).
  assert (Forall (λ d : device,
            strict_eq (d !! "id") (Scenario.lamp !! "id") = true →
            d !! "is_on" = Some (SBool (truthy (Scenario.lamp !! "is_on"))))
            (devices st)) as H4.
  { repeat constructor; vm_compute; intros; first [discriminate | reflexivity]. }
  split; [exact H1|].
  exact (rejected_toggle_restores_the_list (Scenario.always JNull)
           Scenario.lamp Scenario.server_down s st H1 eq_refl eq_refl H4).
Defined.

(** ** A drag, from the pointer to the page *)

Section DragToPage.

Import Settings.

Lemma navigations_app out1 out2 :
  navigations (out1 ++ out2) = navigations out1 ++ navigations out2.
Proof. unfold navigations. apply omap_app. Qed.

Lemma serve_all_run (o : rest_outcome) (cbs : list callback) st :
  state_after (serve_all o cbs) st
    = with_devices (λ _, positions_after cbs (devices st)) st
  ∧ calls (trace_of (serve_all o cbs) st) = commits_of cbs
  ∧ navigations (trace_of (serve_all o cbs) st) = settings_opened cbs.
Proof.
  revert st. induction cbs as [|cb cbs IH]; intros st.
  - split; [by destruct st | done].
  - cbn [serve_all].
    rewrite state_after_bind, trace_of_bind, calls_app, navigations_app.
    destruct (IH (state_after (serve o cb) st)) as (Hs & Hc & Hn).
    rewrite Hs, Hc, Hn.
    destruct cb as [deviceId x y|deviceId x y|deviceId].
    + done.
    + split; [by destruct o | by destruct o].
    + done.
Qed.

Lemma moved_to_twice (deviceId : jsval) (x1 y1 x2 y2 : num) (l : list device) :
  moved_to deviceId x2 y2 (moved_to deviceId x1 y1 l)
    = moved_to deviceId x2 y2 l.
Proof.
  unfold moved_to. rewrite map_map. apply map_ext. intros d.
  destruct (strict_eq (d !! "id") deviceId) eqn:E; [|by rewrite E].
  rewrite !device_lookup_insert_ne by done. rewrite E.
  rewrite !device_insert_unfold. cbn [own]. f_equal.
  apply map_eq. intros k.
  destruct (decide (k = "position_y")) as [->|Hy].
  - by rewrite !lookup_insert_eq.
  - rewrite (lookup_insert_ne _ "position_y") by done.
    rewrite (lookup_insert_ne (<["position_x":=SNum x2]> (own d)) "position_y")
      by done.
    destruct (decide (k = "position_x")) as [->|Hx].
    + by rewrite !lookup_insert_eq.
    + by rewrite !lookup_insert_ne.
Qed.

Lemma positions_after_previews (deviceId : jsval) (x y : num)
    (moves : list (option DOMRect * pointer)) (rest : list callback)
    (l : list device) :
  positions_after
    (map (λ m, onPositionPreview deviceId
                 (getPercentFromPointer m.1 m.2).1
                 (getPercentFromPointer m.1 m.2).2) moves ++ rest)
    (moved_to deviceId x y l)
  = match last moves with
    | Some m =>
        positions_after rest
          (moved_to deviceId (getPercentFromPointer m.1 m.2).1
             (getPercentFromPointer m.1 m.2).2 l)
    | None => positions_after rest (moved_to deviceId x y l)
    end.
Proof.
  revert x y. induction moves as [|m moves IH]; intros x y; [done|].
  cbn [map app].
  change (positions_after (?cb :: ?cbs) ?l0)
    with (positions_after cbs
            (match cb with
             | onPositionPreview deviceId x y => moved_to deviceId x y l0
             | _ => l0
             end)).
  cbv beta iota. rewrite moved_to_twice, IH.
  destruct moves as [|m' moves']; [done|].
  change (last (m :: m' :: moves')) with (last (m' :: moves')).
  destruct (last (m' :: moves')) eqn:E; [done|].
  by apply last_None in E.
Qed.

Lemma previews_have_no_commit (deviceId : jsval)
    (moves : list (option DOMRect * pointer)) :
  commits_of
    (map (λ m, onPositionPreview deviceId
                 (getPercentFromPointer m.1 m.2).1
                 (getPercentFromPointer m.1 m.2).2) moves) = []
  ∧ settings_opened
      (map (λ m, onPositionPreview deviceId
                   (getPercentFromPointer m.1 m.2).1
                   (getPercentFromPointer m.1 m.2).2) moves) = [].
Proof. induction moves as [|m moves [IH1 IH2]]; [done|]. by split. Qed.

(** The calls of a gesture, served. *)
Lemma gesture_served (deviceId : jsval) (x0 y0 x y : num)
    (moves : list (option DOMRect * pointer)) (tail : list callback)
    (l : list device) :
  (∀ l', positions_after tail l' = l') →
  let cbs :=
    onPositionPreview deviceId x0 y0
    :: map (λ m, onPositionPreview deviceId
                   (getPercentFromPointer m.1 m.2).1
                   (getPercentFromPointer m.1 m.2).2) moves
    ++ [onPositionPreview deviceId x y; onPositionCommit deviceId x y]
    ++ tail in
  positions_after cbs l = moved_to deviceId x y l
  ∧ commits_of cbs
    = updateDevice deviceId
        {[ "position_x" := SNum x; "position_y" := SNum y ]}
      :: commits_of tail
  ∧ settings_opened cbs = settings_opened tail.
Proof.
  intros Htail cbs. subst cbs. split; [|split].
  - change (positions_after (?cb :: ?cbs) ?l0)
      with (positions_after cbs
              (match cb with
               | onPositionPreview deviceId x y => moved_to deviceId x y l0
               | _ => l0
               end)).
    cbv beta iota. rewrite positions_after_previews.
    destruct (last moves) as [m|]; cbn [app];
      change (positions_after (?cb :: ?cb' :: tail) ?l0)
        with (positions_after tail
                (match cb with
                 | onPositionPreview deviceId x y => moved_to deviceId x y l0
                 | _ => l0
                 end));
      cbv beta iota; by rewrite Htail, moved_to_twice.
  - unfold commits_of. cbn [omap list_omap]. rewrite omap_app.
    destruct (previews_have_no_commit deviceId moves) as [H _].
    unfold commits_of in H. by rewrite H.
  - unfold settings_opened. cbn [omap list_omap]. rewrite omap_app.
    destruct (previews_have_no_commit deviceId moves) as [_ H].
    unfold settings_opened in H. by rewrite H.
Qed.

End DragToPage.

(** X21.  Serving the calls of a whole gesture on a marker with a truthy
    id leaves the page with the marker's records at the coordinates of
    the release, whatever the moves in between, and with nothing else
    changed.  Exactly one PATCH is made, none per move, and it carries
    those same coordinates; if it fails the position is not rolled back.
    The settings are navigated to exactly when no move went beyond the
    threshold. *)
Theorem drag_leaves_the_marker_where_it_was_released
    (deviceId : jsval) (down : option DOMRect * pointer)
    (moves : list (option DOMRect * pointer))
    (leave : bool) (release : option DOMRect * pointer)
    (c : canvas) (o : rest_outcome) (st : page) :
  truthy deviceId = true →
  let cbs := (run (gesture deviceId down moves leave release) c).2 in
  let x := (getPercentFromPointer release.1 release.2).1 in
  let y := (getPercentFromPointer release.1 release.2).2 in
  let served := Settings.serve_all o cbs in
  state_after served st
    = with_devices (λ _, Settings.moved_to deviceId x y (devices st)) st
  ∧ calls (trace_of served st)
    = [updateDevice deviceId
         {[ "position_x" := SNum x; "position_y" := SNum y ]}]
  ∧ Settings.navigations (trace_of served st)
    = (if moved_beyond (clientX down.2, clientY down.2) moves then []
       else [RDeviceSettings deviceId]).
Proof.
  intros Hid cbs x y served. subst cbs x y served.
  rewrite run_gesture by done. cbn [snd].
  set (tail := if moved_beyond (clientX down.2, clientY down.2) moves
               then [] else [onOpenDeviceSettings deviceId]).
  assert (∀ l', positions_after tail l' = l') as Htail
    by (intros l'; subst tail; by destruct (moved_beyond _ moves)).
  destruct (gesture_served deviceId
              (getPercentFromPointer down.1 down.2).1
              (getPercentFromPointer down.1 down.2).2
              (getPercentFromPointer release.1 release.2).1
              (getPercentFromPointer release.1 release.2).2
              moves tail (devices st) Htail) as (Hp & Hc & Hn).
  cbv zeta in Hp, Hc, Hn.
  match goal with
  | |- context [Settings.serve_all o ?cbs] =>
      destruct (serve_all_run o cbs st) as (Hs & Hc' & Hn')
  end.
  rewrite Hs, Hc', Hn', Hp, Hc, Hn. subst tail.
  by destruct (moved_beyond _ moves).
Qed.

Lemma drag_to_page_witness :
  let id := Some (Scenario.number 7) in
  let st := Scenario.mounted 1 [Scenario.thermometer; Scenario.lamp] in
  let cbs := (run (gesture id (Room.at_ 20 50)
                     [Room.at_ 60 50; Room.at_ 100 80] false
                     (Room.at_ 100 80)) idle).2 in
  truthy id = true
  ∧ calls (trace_of (Settings.serve_all (Failed Scenario.server_down) cbs) st)
    = [updateDevice id
         {[ "position_x" :=
              SNum (getPercentFromPointer (Room.at_ 100 80).1
                      (Room.at_ 100 80).2).1;
            "position_y" :=
              SNum (getPercentFromPointer (Room.at_ 100 80).1
                      (Room.at_ 100 80).2).2 ]}].
Proof.
  intros id st cbs.
  assert (truthy id = true) as H by (vm_compute; reflexivity).
  split; [exact H|].
  exact (proj1 (proj2 (drag_leaves_the_marker_where_it_was_released
           id (Room.at_ 20 50) [Room.at_ 60 50; Room.at_ 100 80] false
           (Room.at_ 100 80) idle (Failed Scenario.server_down) st H))).
Defined.

(** ** Left of the canvas and above it *)

Section BeforeTheCanvas.

Local Open Scope Qc_scope.

Lemma round64_not_positive (q : Qc) : q ≤ 0 → not_positive (round64 q).
Proof.
  intros Hq. pose proof (round64_sign q) as H.
  destruct (round64 q) as [r| | |]; simpl; [by apply H| |done|done].
  by apply (Qcle_not_lt _ _ Hq).
Qed.

Lemma scaled_not_positive (n : num) (k : Qc) :
  0 < k → not_positive n →
  not_positive (js_div n (Fin k)) ∧ not_positive (js_mul n (Fin k)).
Proof.
  intros Hk Hn.
  assert (k ≠ 0) as Hk0 by (intros ->; by apply (Qclt_not_eq 0 0)).
  assert (¬ k < 0) as Hk1 by (by apply Qcle_not_lt, Qclt_le_weak).
  destruct n as [r| | |]; try done; unfold js_div, js_mul; simpl in Hn.
  - rewrite (bool_decide_false _ Hk0).
    split; apply round64_not_positive.
    + assert (0 < / k) as Hi by (by apply Qcinv_pos).
      unfold Qcle, Qclt in *.
      repeat (progress (unfold Qcdiv, Qcmult, Qcinv in *; cbn [this Q2Qc] in * )).
      rewrite !Qred_correct in *. change (this 0) with 0%Q in *.
      generalize dependent (/ this k)%Q. intros ik Hi. nra.
    + unfold Qcle, Qclt in *.
      repeat (progress (unfold Qcmult in *; cbn [this Q2Qc] in * )).
      rewrite !Qred_correct in *. change (this 0) with 0%Q in *. nra.
  - rewrite (bool_decide_false _ Hk1). unfold scaled_infinity.
    by rewrite (bool_decide_false _ Hk0), (bool_decide_true _ Hk).
Qed.

Lemma clamp_not_positive (n : num) :
  not_positive n → Math_min (Fin hundred) (Math_max (Fin 0) n) = Fin 0.
Proof.
  destruct n as [r| | |]; simpl; try done.
  intros Hr. destruct (decide (0 ≤ r)) as [H0|H0].
  - by assert (r = 0) as -> by (by apply Qcle_antisym).
  - by rewrite (bool_decide_false _ H0).
Qed.

Lemma axis_before (p origin length : Qc) :
  0 < length → p ≤ origin →
  Math_min (Fin hundred) (Math_max (Fin 0)
    (js_mul (js_div (js_sub (Fin p) (Fin origin)) (Fin length)) (Fin hundred)))
  = Fin 0.
Proof.
  intros Hl Hp. apply clamp_not_positive.
  apply scaled_not_positive; [by vm_compute|].
  apply scaled_not_positive; [done|].
  unfold js_sub. apply round64_not_positive.
  unfold Qcle in *. unfold Qcminus, Qcplus, Qcopp. cbn [this Q2Qc].
  rewrite !Qred_correct. change (this 0) with 0%Q. lra.
Qed.

End BeforeTheCanvas.

(** X22.  On a canvas of positive size a pointer on the left edge or
    left of it gets the horizontal coordinate 0 exactly, and a pointer
    on the top edge or above it the vertical coordinate 0 exactly: the
    three roundings on the way keep the sign, and the clamp maps what is
    not positive (minus infinity after an overflow included) to 0. *)
Theorem pointer_before_the_canvas_is_at_zero
    (rect : DOMRect) (e : pointer) :
  (0 < rect_width rect)%Qc → (0 < rect_height rect)%Qc →
  let x := (getPercentFromPointer (Some rect) e).1 in
  let y := (getPercentFromPointer (Some rect) e).2 in
  ((clientX e ≤ rect_left rect)%Qc → x = Fin 0)
  ∧ ((clientY e ≤ rect_top rect)%Qc → y = Fin 0).
Proof.
  intros Hw Hh x y. subst x y. unfold getPercentFromPointer. cbn [fst snd].
  split; intros H; by apply axis_before.
Qed.

Lemma pointer_before_the_canvas_witness :
  let rect := Room.canvas_rect in
  let e := (Room.at_ (-40) 50).2 in
  (0 < rect_width rect)%Qc ∧ (0 < rect_height rect)%Qc
  ∧ ((clientX e ≤ rect_left rect)%Qc →
     (getPercentFromPointer (Some rect) e).1 = Fin 0).
Proof.
  intros rect e.
  assert (0 < rect_width rect)%Qc as H1 by (by vm_compute).
  assert (0 < rect_height rect)%Qc as H2 by (by vm_compute).
  split; [exact H1|]. split; [exact H2|].
  exact (proj1 (pointer_before_the_canvas_is_at_zero rect e H1 H2)).
Defined.

(** ** The status badge of the live channel *)

Section Badge.

Import Channel.

Lemma after_events_status (events : list socket_event) (c : channel) :
  wsStatus (after_events events c) =
    match last_lifecycle events with
    | None => wsStatus c
    | Some Opened => "online"
    | Some _ => "offline"
    end
  ∧ socketRef (after_events events c) =
      (if existsb is_closed events then None else socketRef c).
Proof.
  revert c. induction events as [|ev events IH]; intros c; [done|].
  change (after_events (ev :: events) c)
    with (after_events events (on ev c)).
  destruct (IH (on ev c)) as [Hs Hr]. rewrite Hs, Hr. cbn [last_lifecycle existsb].
  destruct (last_lifecycle events) as [later|]; destruct ev; simpl;
    try done; by destruct (existsb is_closed events).
Qed.

End Badge.

(** X23.  Once the effect has opened a socket, the status never is
    [idle] again and the badge is always shown.  What it shows depends
    only on the last socket event that was not a message: nothing yet,
    it reads that the channel is connecting; an open, that it is live; an
    error or a close, that it is offline, and no handler reconnects.
    [socketRef] is cleared by the first close and never set again.
    Before the effect has run no badge is shown. *)
Theorem badge_follows_the_last_socket_event
    (socket : nat) (events : list Channel.socket_event)
    (c : Channel.channel) :
  let final := after_events events (Channel.connect socket c) in
  Channel.renderWsStatus final
    = Some (badge_for (Channel.last_lifecycle events))
  ∧ Channel.wsStatus final ≠ "idle"
  ∧ Channel.socketRef final
    = (if existsb is_closed events then None else Some socket)
  ∧ Channel.renderWsStatus Channel.unmounted = None.
Proof.
  intros final. subst final.
  destruct (after_events_status events (Channel.connect socket c)) as [Hs Hr].
  unfold Channel.renderWsStatus. rewrite Hs, Hr.
  destruct (Channel.last_lifecycle events) as [[]|]; done.
Qed.
